(** * ExpressAuthGateway: the authentication core, embedded and verified

    The development follows the layout of the repository:
    - [Validation]  : services/validation_service.js (password and name rules);
    - the storage model: models/*.js, init_tables.js and the knex/PostgreSQL
      operations that services/database_service.js issues;
    - [DatabaseService] : services/database_service.js;
    - the controllers of controllers/auth_controller.js, localStrategy.js and
      the route guard of routes/auth_routes.js.

    JavaScript strings are modelled by [string]; a character stands for one
    code unit (a code unit above 255 has no counterpart here; the password
    rules refuse every string that has one, as they refuse every character
    outside their list).  Time stamps are integers (milliseconds since the
    epoch). *)

From Stdlib Require Import ZArith String Ascii List Bool Lia.
From stdpp Require Import base option gmap strings list.

Local Open Scope string_scope.
Local Open Scope list_scope.
Local Open Scope Z_scope.

(* ===================================================================== *)
(** * services/validation_service.js *)
(* ===================================================================== *)

Module Validation.

(** A regular expression made of one character class, as all the regular
    expressions of the validation service are: [/[a-z]/], [/\d/],
    [/[^a-zA-Z0-9 ...]/]. *)
Inductive class_item : Type :=
| Chr (c : ascii)
| Rng (lo hi : ascii).

Record char_class : Type := CharClass {
  negated : bool;
  items : list class_item
}.

Definition item_matches (c : ascii) (i : class_item) : bool :=
  match i with
  | Chr d => Ascii.eqb c d
  | Rng lo hi => (N_of_ascii lo <=? N_of_ascii c)%N && (N_of_ascii c <=? N_of_ascii hi)%N
  end.

Definition class_matches (cls : char_class) (c : ascii) : bool :=
  xorb (negated cls) (existsb (item_matches c) (items cls)).

(** [re.test(value)] for an unanchored one-class expression: some character
    of the value is matched by the class. *)
Definition regex_test (cls : char_class) (value : string) : bool :=
  existsb (class_matches cls) (list_ascii_of_string value).

(** [!@#$%^&*()_+\-=[\]{};:,.?] *)
Definition special_items : list class_item :=
  [Chr "!"; Chr "@"; Chr "#"; Chr "$"; Chr "%"; Chr "^"; Chr "&"; Chr "*";
   Chr "("; Chr ")"; Chr "_"; Chr "+"; Chr "-"; Chr "="; Chr "["; Chr "]";
   Chr "{"; Chr "}"; Chr ";"; Chr ":"; Chr ","; Chr "."; Chr "?"].

Definition re_lowercase : char_class := CharClass false [Rng "a" "z"].
Definition re_uppercase : char_class := CharClass false [Rng "A" "Z"].
Definition re_digit : char_class := CharClass false [Rng "0" "9"].
Definition re_special : char_class := CharClass false special_items.
Definition re_not_allowed : char_class :=
  CharClass true ([Rng "a" "z"; Rng "A" "Z"; Rng "0" "9"; Chr " "] ++ special_items).

(** What a validator returns: [{valid, message}]. *)
Record verdict : Type := Verdict {
  valid : bool;
  message : string
}.

Definition nl : string := String (ascii_of_nat 10) EmptyString.

Definition containsLowercase (value : string) : verdict :=
  {| valid := regex_test re_lowercase value;
     message := "Password must contain at least one lowercase letter" |}.

Definition containsUppercase (value : string) : verdict :=
  {| valid := regex_test re_uppercase value;
     message := "Password must contain at least one uppercase letter" |}.

Definition containsNumber (value : string) : verdict :=
  {| valid := regex_test re_digit value;
     message := "Password must contain at least one number" |}.

Definition onlyAllowedChars (value : string) : verdict :=
  {| valid := negb (regex_test re_not_allowed value);
     message := ("Password can only contain the following characters: " ++ nl ++
                 "a-z, A-Z, 0-9, spaces, and these special characters: " ++ nl ++
                 "!@#$%^&*()_+-=[]{};:,.?")%string |}.

Definition containsSpecialChar (value : string) : verdict :=
  {| valid := regex_test re_special value;
     message := ("Password must contain at least one special character: " ++ nl ++
                 "(!@#$%^&*()_+-=[]{};:,.?)")%string |}.

Definition atLeastEightCharacters (value : string) : verdict :=
  {| valid := (8 <=? String.length value)%nat;
     message := "Password must have at least eight characters" |}.

Definition atMostTwentyCharacters (value : string) : verdict :=
  {| valid := (String.length value <=? 20)%nat;
     message := "Password must have at most 20 characters" |}.

Definition atLeastFiveCharactersOperator (value : string) : verdict :=
  {| valid := (5 <=? String.length value)%nat;
     message := "Make it grow a little." |}.

Definition atMostTwentyCharactersOperator (value : string) : verdict :=
  {| valid := (String.length value <=? 20)%nat;
     message := "Easy... Take it easy." |}.

(** The loop shared by the three [validate...] functions: every validator
    runs, and a failing one pushes its message on [errors[0]].  [errors] is
    the JavaScript object, a map from keys to message lists. *)
Definition run_validators (validators : list (string -> verdict)) (value : string)
  : gmap Z (list string) :=
  fold_left
    (fun errors validator =>
       let result := validator value in
       if negb (valid result)
       then <[0 := default [] (errors !! 0) ++ [message result]]> errors
       else errors)
    validators ∅.

(** [Object.keys(errors).length === 0] *)
Definition no_errors (errors : gmap Z (list string)) : bool :=
  Nat.eqb (size errors) 0.

Definition password_validators : list (string -> verdict) :=
  [containsLowercase; containsUppercase; containsNumber; containsSpecialChar;
   onlyAllowedChars; atLeastEightCharacters; atMostTwentyCharacters].

Definition validatePassword (password : string) : bool :=
  no_errors (run_validators password_validators password).

Definition operator_validators : list (string -> verdict) :=
  [atLeastFiveCharactersOperator; atMostTwentyCharactersOperator].

Definition validateOperator (operator : string) : bool :=
  no_errors (run_validators operator_validators operator).

(** ** The password rules as the specification words them *)

Definition lowercase_letters : string := "abcdefghijklmnopqrstuvwxyz".
Definition uppercase_letters : string := "ABCDEFGHIJKLMNOPQRSTUVWXYZ".
Definition decimal_digits : string := "0123456789".
Definition special_characters : string := "!@#$%^&*()_+-=[]{};:,.?".

Definition one_of (alphabet : string) (c : ascii) : Prop :=
  In c (list_ascii_of_string alphabet).

Definition contains_one_of (alphabet : string) (p : string) : Prop :=
  exists c, In c (list_ascii_of_string p) /\ one_of alphabet c.

Definition is_space (c : ascii) : Prop := c = " "%char.

Record password_rules (p : string) : Prop := PasswordRules {
  rule_lowercase : contains_one_of lowercase_letters p;
  rule_uppercase : contains_one_of uppercase_letters p;
  rule_digit : contains_one_of decimal_digits p;
  rule_special : contains_one_of special_characters p;
  rule_only_allowed :
    forall c, In c (list_ascii_of_string p) ->
      one_of lowercase_letters c \/ one_of uppercase_letters c \/
      one_of decimal_digits c \/ is_space c \/ one_of special_characters c;
  rule_length : (8 <= String.length p <= 20)%nat
}.

(** Membership in an alphabet, decided. *)
Definition one_ofb (alphabet : string) (c : ascii) : bool :=
  existsb (Ascii.eqb c) (list_ascii_of_string alphabet).

End Validation.

(* ===================================================================== *)
(** * JavaScript errors and promises *)
(* ===================================================================== *)

(** An [Error] object.  Errors raised by the PostgreSQL driver carry the
    SQLSTATE in [code]; [new Error(message)] carries none. *)
Record js_error : Type := JsError {
  code : option string;
  message : string
}.

Definition new_Error (m : string) : js_error :=
  {| code := None; message := m |}.

(** How an awaited promise ends; [Pending] is a promise that never settles. *)
Inductive outcome (A : Type) : Type :=
| Resolved (a : A)
| Rejected (error : js_error)
| Pending.

Arguments Resolved {A} a.
Arguments Rejected {A} error.
Arguments Pending {A}.

(* ===================================================================== *)
(** * models/*.js and init_tables.js: the tables *)
(* ===================================================================== *)

Inductive column_type : Type := serial | text | integer | dateTime | varchar | json.

(** One entry of a model's [columns]: [{ type, primaryKey, notNull }]. *)
Record column_model : Type := ColumnModel {
  type : column_type;
  primaryKey : bool;
  notNull : bool
}.

Record model : Type := Model {
  schema : string;
  table : string;
  columns : list (string * column_model)
}.

(** [process.env.AUTH_SCHEMA]; the knexfile's [searchPath] and the
    qualified names of database_service.js fix it to [auth]. *)
Definition AUTH_SCHEMA : string := "auth".

Definition operatorModel : model :=
  {| schema := AUTH_SCHEMA;
     table := "operators";
     columns :=
       [("_id", ColumnModel serial true true);
        ("email", ColumnModel text false true);
        ("password", ColumnModel text false false);
        ("operator", ColumnModel text false true)] |}.

Definition tokenModel : model :=
  {| schema := AUTH_SCHEMA;
     table := "tokens";
     columns :=
       [("_id", ColumnModel serial true true);
        ("_fk_operator", ColumnModel integer false true);
        ("token", ColumnModel text false true);
        ("created_at", ColumnModel dateTime false true)] |}.

(** knex's column builder, reduced to the constraints it can declare. *)
Record column_builder : Type := ColumnBuilder {
  cb_type : column_type;
  cb_increments : bool;
  cb_primary : bool;
  cb_not_null : bool;
  cb_unique : bool
}.

(** [table.increments(column)]: an auto-incrementing primary key. *)
Definition increments : column_builder :=
  ColumnBuilder integer true true true false.

(** [table[type](column)] *)
Definition plain_column (t : column_type) : column_builder :=
  ColumnBuilder t false false false false.

(** [columnBuilder.primary()] *)
Definition primary (b : column_builder) : column_builder :=
  ColumnBuilder (cb_type b) (cb_increments b) true (cb_not_null b) (cb_unique b).

(** [columnBuilder.notNullable()] *)
Definition notNullable (b : column_builder) : column_builder :=
  ColumnBuilder (cb_type b) (cb_increments b) (cb_primary b) true (cb_unique b).

(** [columnBuilder.unique()], the one way to declare a unique index on a
    column that is not the primary key. *)
Definition unique (b : column_builder) : column_builder :=
  ColumnBuilder (cb_type b) (cb_increments b) (cb_primary b) (cb_not_null b) true.

Definition table_def : Type := list (string * column_builder).

Definition is_serial (t : column_type) : bool :=
  match t with serial => true | _ => false end.

(** [createTable(model)] of init_tables.js. *)
Definition createTable (m : model) : table_def :=
  map (fun '(column, c) =>
         let columnBuilder :=
           if is_serial (type c) then increments else plain_column (type c) in
         let columnBuilder :=
           if primaryKey c then primary columnBuilder else columnBuilder in
         let columnBuilder :=
           if notNull c then notNullable columnBuilder else columnBuilder in
         (column, columnBuilder))
      (columns m).

Fixpoint column_def (t : table_def) (column : string) : option column_builder :=
  match t with
  | [] => None
  | (name, b) :: rest => if String.eqb name column then Some b else column_def rest column
  end.

(** Does the table reject a second row with the same value in [column]? *)
Definition enforces_unique (t : table_def) (column : string) : bool :=
  match column_def t column with
  | Some b => cb_primary b || cb_unique b
  | None => false
  end.

Definition enforces_not_null (t : table_def) (column : string) : bool :=
  match column_def t column with
  | Some b => cb_primary b || cb_not_null b
  | None => false
  end.

(** The table definitions the database holds.  (The [sessions] table belongs
    to the session store.) *)
Record catalog : Type := Catalog {
  operators_def : table_def;
  tokens_def : table_def
}.

(** The catalog [initDataTables] creates. *)
Definition initial_catalog : catalog :=
  {| operators_def := createTable operatorModel;
     tokens_def := createTable tokenModel |}.

(** ** Rows *)

Record operator_row : Type := OperatorRow {
  o_id : Z;
  o_email : string;
  o_password : option string;
  o_operator : string
}.

Record token_row : Type := TokenRow {
  t_id : Z;
  t_fk_operator : Z;
  t_token : string;
  t_created_at : Z
}.

Record tables : Type := Tables {
  operators : list operator_row;
  tokens : list token_row
}.

(** PostgreSQL's errors, with their SQLSTATE. *)
Definition unique_violation : js_error :=
  {| code := Some "23505";
     message := "duplicate key value violates unique constraint" |}.

Definition not_null_violation : js_error :=
  {| code := Some "23502";
     message := "null value violates not-null constraint" |}.

(* ===================================================================== *)
(** * The database behind knex *)
(* ===================================================================== *)

(** ** Statements on a table *)

Definition same_text (a b : option string) : bool :=
  match a, b with
  | Some x, Some y => String.eqb x y
  | _, _ => false
  end.

(** [INSERT INTO operators]: the constraints of the table definition are
    checked against the rows already there. *)
Definition insert_operator (def : table_def) (row : operator_row)
    (rows : list operator_row) : outcome (list operator_row) :=
  if enforces_not_null def "password" && negb (bool_decide (is_Some (o_password row)))
  then Rejected not_null_violation
  else if (enforces_unique def "_id" && existsb (fun r => o_id r =? o_id row) rows)
       || (enforces_unique def "email"
           && existsb (fun r => String.eqb (o_email r) (o_email row)) rows)
       || (enforces_unique def "password"
           && existsb (fun r => same_text (o_password r) (o_password row)) rows)
       || (enforces_unique def "operator"
           && existsb (fun r => String.eqb (o_operator r) (o_operator row)) rows)
  then Rejected unique_violation
  else Resolved (rows ++ [row]).

(** [INSERT INTO tokens] *)
Definition insert_token (def : table_def) (row : token_row)
    (rows : list token_row) : outcome (list token_row) :=
  if (enforces_unique def "_id" && existsb (fun r => t_id r =? t_id row) rows)
     || (enforces_unique def "_fk_operator"
         && existsb (fun r => t_fk_operator r =? t_fk_operator row) rows)
     || (enforces_unique def "token"
         && existsb (fun r => String.eqb (t_token r) (t_token row)) rows)
     || (enforces_unique def "created_at"
         && existsb (fun r => t_created_at r =? t_created_at row) rows)
  then Rejected unique_violation
  else Resolved (rows ++ [row]).

(** The object given to [.update(...)] on operators: the columns it names. *)
Record operator_update : Type := OperatorUpdate {
  set_password : option string;
  set_operator : option string
}.

Definition apply_update (u : operator_update) (r : operator_row) : operator_row :=
  {| o_id := o_id r;
     o_email := o_email r;
     o_password := match set_password u with Some h => Some h | None => o_password r end;
     o_operator := match set_operator u with Some n => n | None => o_operator r end |}.

(** [UPDATE operators SET ... WHERE _id = id] *)
Definition update_operators (def : table_def) (id : Z) (u : operator_update)
    (rows : list operator_row) : outcome (list operator_row) :=
  let targets := List.filter (fun r => o_id r =? id) rows in
  let others := List.filter (fun r => negb (o_id r =? id)) rows in
  let clash (column : string) (assigned : option string)
            (get : operator_row -> option string) : bool :=
    match assigned with
    | Some v =>
        enforces_unique def column
        && (existsb (fun r => same_text (get r) (Some v)) others
            || (2 <=? length targets)%nat)
    | None => false
    end in
  if clash "password" (set_password u) o_password
     || clash "operator" (set_operator u) (fun r => Some (o_operator r))
  then Rejected unique_violation
  else Resolved (map (fun r => if o_id r =? id then apply_update u r else r) rows).

(** [DELETE FROM tokens WHERE token = value] *)
Definition delete_tokens (value : string) (rows : list token_row) : list token_row :=
  List.filter (fun r => negb (String.eqb (t_token r) value)) rows.

(** [tokens JOIN operators ON tokens._fk_operator = operators._id] *)
Definition join_tokens_operators (t : tables) : list (token_row * operator_row) :=
  flat_map
    (fun tk => map (pair tk)
                   (List.filter (fun o => t_fk_operator tk =? o_id o) (operators t)))
    (tokens t).

(** ** The connection: committed tables, sequences, the open transaction *)

(** The round trips to the server, as they are issued. *)
Inductive query : Type :=
| Begin
| Commit
| Rollback
| Select (from : string)
| Insert (into : string)
| Update (target : string)
| Delete (from : string).

(** A session held by the session store. *)
Record session : Type := Session {
  passport_user : option operator_row;
  session_token : option string
}.

(** The world a request runs in:
    - [catalog_of]: the table definitions;
    - [committed]: the committed rows;
    - [operators_id_seq], [tokens_id_seq]: the next values of the two
      [serial] sequences (a rollback does not give a value back);
    - [transaction]: the working copy of the open transaction, if one is open;
    - [settled]: how the promise of [knex.transaction] was settled, if it was;
    - [faults]: the failures the driver will meet, one entry per round trip
      ([Some e] makes the round trip fail with [e]; past the end nothing
      fails);
    - [log]: the round trips made so far, the latest first;
    - [sessions]: the session store, keyed by session id. *)
Record world : Type := World {
  catalog_of : catalog;
  committed : tables;
  operators_id_seq : Z;
  tokens_id_seq : Z;
  transaction : option tables;
  settled : option (option js_error);
  faults : list (option js_error);
  log : list query;
  sessions : gmap string session
}.

Definition set_committed (t : tables) (w : world) : world :=
  World (catalog_of w) t (operators_id_seq w) (tokens_id_seq w) (transaction w)
        (settled w) (faults w) (log w) (sessions w).

Definition set_operators_id_seq (n : Z) (w : world) : world :=
  World (catalog_of w) (committed w) n (tokens_id_seq w) (transaction w)
        (settled w) (faults w) (log w) (sessions w).

Definition set_tokens_id_seq (n : Z) (w : world) : world :=
  World (catalog_of w) (committed w) (operators_id_seq w) n (transaction w)
        (settled w) (faults w) (log w) (sessions w).

Definition set_transaction (t : option tables) (s : option (option js_error))
    (w : world) : world :=
  World (catalog_of w) (committed w) (operators_id_seq w) (tokens_id_seq w) t
        s (faults w) (log w) (sessions w).

Definition set_wire (f : list (option js_error)) (l : list query) (w : world) : world :=
  World (catalog_of w) (committed w) (operators_id_seq w) (tokens_id_seq w)
        (transaction w) (settled w) f l (sessions w).

Definition set_sessions (s : gmap string session) (w : world) : world :=
  World (catalog_of w) (committed w) (operators_id_seq w) (tokens_id_seq w)
        (transaction w) (settled w) (faults w) (log w) s.

(** ** Asynchronous computations over the world *)

Definition IO (A : Type) : Type := world -> outcome A * world.

Definition ret {A : Type} (a : A) : IO A := fun w => (Resolved a, w).

(** [throw error] *)
Definition throw {A : Type} (error : js_error) : IO A := fun w => (Rejected error, w).

(** [await m] followed by [k] *)
Definition bind {A B : Type} (m : IO A) (k : A -> IO B) : IO B :=
  fun w =>
    match m w with
    | (Resolved a, w') => k a w'
    | (Rejected error, w') => (Rejected error, w')
    | (Pending, w') => (Pending, w')
    end.

(** [try { m } catch (error) { handler }], also [promise.catch(handler)] *)
Definition try_catch {A : Type} (m : IO A) (handler : js_error -> IO A) : IO A :=
  fun w =>
    match m w with
    | (Rejected error, w') => handler error w'
    | settled => settled
    end.

Declare Scope io_scope.
Delimit Scope io_scope with io.
Notation "x <- m ;; k" := (bind m (fun x => k))
  (at level 100, m at next level, right associativity) : io_scope.
Notation "m ;; k" := (bind m (fun _ => k))
  (at level 100, right associativity) : io_scope.
Local Open Scope io_scope.

(** One round trip to the server. *)
Definition round_trip (q : query) : IO unit :=
  fun w =>
    match faults w with
    | Some error :: rest => (Rejected error, set_wire rest (q :: log w) w)
    | None :: rest => (Resolved tt, set_wire rest (q :: log w) w)
    | [] => (Resolved tt, set_wire [] (q :: log w) w)
    end.

(** Run a statement on the committed tables ([transacting = false]) or on
    the working copy of the open transaction ([.transacting(trx)]). *)
Definition on_tables {A : Type} (transacting : bool)
    (f : catalog -> tables -> outcome (A * tables)) : IO A :=
  fun w =>
    match (if transacting then transaction w else Some (committed w)) with
    | None => (Rejected (new_Error "Transaction query already complete"), w)
    | Some t =>
        match f (catalog_of w) t with
        | Resolved (a, t') =>
            (Resolved a,
             if transacting then set_transaction (Some t') (settled w) w
             else set_committed t' w)
        | Rejected error => (Rejected error, w)
        | Pending => (Pending, w)
        end
    end.

Definition nextval_operators : IO Z :=
  fun w => (Resolved (operators_id_seq w),
            set_operators_id_seq (operators_id_seq w + 1) w).

Definition nextval_tokens : IO Z :=
  fun w => (Resolved (tokens_id_seq w),
            set_tokens_id_seq (tokens_id_seq w + 1) w).

(** ** knex.transaction, trx.commit and trx.rollback *)

(** [trx.commit]: the working copy becomes the committed state and the
    transaction's promise resolves.  A failing COMMIT leaves the committed
    rows alone and rejects that promise; the promise [trx.commit] itself
    returns resolves in both cases. *)
Definition trx_commit : IO unit :=
  fun w =>
    match round_trip Commit w with
    | (Resolved _, w1) =>
        (Resolved tt,
         set_transaction None (Some None)
           (set_committed (default (committed w1) (transaction w1)) w1))
    | (Rejected error, w1) => (Resolved tt, set_transaction None (Some (Some error)) w1)
    | (Pending, w1) => (Pending, w1)
    end.

(** [trx.rollback(error)]: the working copy is dropped and the transaction's
    promise rejects with [error] (with the failure of ROLLBACK itself when
    that round trip fails). *)
Definition trx_rollback (error : js_error) : IO unit :=
  fun w =>
    match round_trip Rollback w with
    | (Resolved _, w1) => (Resolved tt, set_transaction None (Some (Some error)) w1)
    | (Rejected error', w1) => (Resolved tt, set_transaction None (Some (Some error')) w1)
    | (Pending, w1) => (Pending, w1)
    end.

(** [knex.transaction(function (trx) { container })] where the container
    returns nothing: BEGIN, run the container, and settle as [trx.commit] or
    [trx.rollback] said.  If neither was called the promise stays pending. *)
Definition knex_transaction (container : IO unit) : IO unit :=
  fun w =>
    match round_trip Begin w with
    | (Resolved _, w1) =>
        let w2 := set_transaction (Some (committed w1)) None w1 in
        let '(_, w3) := container w2 in
        match settled w3 with
        | Some None => (Resolved tt, w3)
        | Some (Some error) => (Rejected error, w3)
        | None => (Pending, w3)
        end
    | (Rejected error, w1) => (Rejected error, w1)
    | (Pending, w1) => (Pending, w1)
    end.

(** ** The query builders database_service.js uses *)

(** [knex.select('*').from(...).where(...).first()] *)
Definition select_first {A : Type} (from : string) (rows : tables -> list A)
    (where_ : A -> bool) : IO (option A) :=
  round_trip (Select from) ;;
  on_tables false (fun _ t => Resolved (List.find where_ (rows t), t)).

(** [knex(into).insert({email, operator}).returning('_id')], the [_id] drawn
    from the sequence unless it is given. *)
Definition insert_into_operators (into : string) (transacting : bool)
    (_id : option Z) (email : string) (password : option string)
    (operator : string) : IO Z :=
  round_trip (Insert into) ;;
  id <- match _id with Some id => ret id | None => nextval_operators end ;;
  on_tables transacting
    (fun cat t =>
       match insert_operator (operators_def cat)
               (OperatorRow id email password operator) (operators t) with
       | Resolved rows => Resolved (id, Tables rows (tokens t))
       | Rejected error => Rejected error
       | Pending => Pending
       end).

(** [knex(into).insert({_fk_operator, token, created_at})] *)
Definition insert_into_tokens (into : string) (transacting : bool)
    (_fk_operator : Z) (token : string) (created_at : Z) : IO unit :=
  round_trip (Insert into) ;;
  id <- nextval_tokens ;;
  on_tables transacting
    (fun cat t =>
       match insert_token (tokens_def cat)
               (TokenRow id _fk_operator token created_at) (tokens t) with
       | Resolved rows => Resolved (tt, Tables (operators t) rows)
       | Rejected error => Rejected error
       | Pending => Pending
       end).

(** [knex(target).where({_id}).update(u)] *)
Definition update_operators_where_id (target : string) (transacting : bool)
    (_id : Z) (u : operator_update) : IO unit :=
  round_trip (Update target) ;;
  on_tables transacting
    (fun cat t =>
       match update_operators (operators_def cat) _id u (operators t) with
       | Resolved rows => Resolved (tt, Tables rows (tokens t))
       | Rejected error => Rejected error
       | Pending => Pending
       end).

(** [knex(from).where('token', token).del()] *)
Definition delete_from_tokens (from : string) (transacting : bool)
    (token : string) : IO unit :=
  round_trip (Delete from) ;;
  on_tables transacting
    (fun _ t => Resolved (tt, Tables (operators t) (delete_tokens token (tokens t)))).

(* ===================================================================== *)
(** * services/database_service.js *)
(* ===================================================================== *)

Module DatabaseService.

(** One hour, in milliseconds: [INTERVAL '1 HOUR']. *)
Definition HOUR : Z := 3600000.

(** [catch (error) { throw new Error(error.message) }] *)
Definition rethrow {A : Type} (m : IO A) : IO A :=
  try_catch m (fun error => throw (new_Error (message error))).

Definition getOperatorByEmail (email : string) : IO (option operator_row) :=
  rethrow (select_first "operators" operators
             (fun r => String.eqb (o_email r) email)).

Definition getOperatorByName (name : string) : IO (option operator_row) :=
  rethrow (select_first "operators" operators
             (fun r => String.eqb (o_operator r) name)).

Definition getOperatorByToken (token : string) : IO (option (token_row * operator_row)) :=
  rethrow (select_first "tokens" join_tokens_operators
             (fun r => String.eqb (t_token (fst r)) token)).

(** [now] is the server's [NOW()]. *)
Definition getResetTokenRecord (now : Z) (token : string) : IO (option token_row) :=
  rethrow (select_first "auth.tokens" tokens
             (fun r => String.eqb (t_token r) token && (now - HOUR <? t_created_at r))).

Definition getInviteTokenRecord (token : string) : IO (option token_row) :=
  rethrow (select_first "auth.tokens" tokens
             (fun r => String.eqb (t_token r) token)).

(** [currentTime] is [new Date()]. *)
Definition setResetToken (currentTime : Z) (operator : Z) (token : string) : IO unit :=
  try_catch
    (insert_into_tokens "tokens" false operator token currentTime)
    (fun error =>
       if same_text (code error) (Some "23505")
       then throw (new_Error
              "Take it easy! For your safety, only one password reset request per hour.")
       else throw (new_Error (message error))).

(** The object [setInviteToken] returns. *)
Record receipt : Type := Receipt {
  receipt_success : bool;
  receipt_message : string
}.

Definition setInviteToken (currentTime : Z) (operator : string) (token : string)
  : IO receipt :=
  rethrow
    (knex_transaction
       (try_catch
          (operator_id <- insert_into_operators "auth.operators" true None
                            operator None "New Operator" ;;
           insert_into_tokens "auth.tokens" true operator_id token currentTime ;;
           trx_commit)
          trx_rollback) ;;
     ret {| receipt_success := true; receipt_message := "Till next time." |}).

Definition updateOperator (name : string) (operator : Z) : IO Z :=
  rethrow
    (update_operators_where_id "auth.operators" false operator
       (OperatorUpdate None (Some name)) ;;
     ret operator).

Definition updatePassword (hash : string) (token_record : token_row) : IO unit :=
  rethrow
    (knex_transaction
       (try_catch
          (update_operators_where_id "auth.operators" true
             (t_fk_operator token_record) (OperatorUpdate (Some hash) None) ;;
           delete_from_tokens "auth.tokens" true (t_token token_record) ;;
           trx_commit)
          trx_rollback)).

Definition initOperator (operator : string) (hash : string) (token_record : token_row)
  : IO unit :=
  rethrow
    (knex_transaction
       (try_catch
          (update_operators_where_id "auth.operators" true
             (t_fk_operator token_record) (OperatorUpdate (Some hash) (Some operator)) ;;
           delete_from_tokens "auth.tokens" true (t_token token_record) ;;
           trx_commit)
          trx_rollback)).

(** [root + '/' + route + '/' + token] *)
Definition generateLink (root route token : string) : string :=
  (root ++ "/" ++ route ++ "/" ++ token)%string.

End DatabaseService.

(* ===================================================================== *)
(** * init_tables.js: the database after [initDataTables] *)
(* ===================================================================== *)

(** The password hash of the genesis operator. *)
Definition genesis_hash : string :=
  "$2b$10$BT4kpEreyvcDT69xLRRIWuwofKYKT9DbXY7Z5zmf71caWxVAh2XW2".

Definition empty_database : world :=
  {| catalog_of := initial_catalog;
     committed := Tables [] [];
     operators_id_seq := 1;
     tokens_id_seq := 1;
     transaction := None;
     settled := None;
     faults := [];
     log := [];
     sessions := ∅ |}.

Definition insertGenesisUser (GENESIS_EMAIL GENESIS_OPERATOR : string) : IO unit :=
  try_catch
    (insert_into_operators "operators" false (Some 0) GENESIS_EMAIL
       (Some genesis_hash) GENESIS_OPERATOR ;;
     ret tt)
    (fun _ => ret tt).

Definition initDataTables (GENESIS_EMAIL GENESIS_OPERATOR : string) : world :=
  snd (insertGenesisUser GENESIS_EMAIL GENESIS_OPERATOR empty_database).

(* ===================================================================== *)
(** * services/mail_service.js *)
(* ===================================================================== *)

Module MailService.

(** What [response.json()] yields, as far as the controllers read it: the
    value [null], or a value with its [error] property ([None] when it has
    none). *)
Inductive response_data : Type :=
| JsonNull
| ResponseData (error : option string).

(** The [Response] of [fetch]: its status and how [response.json()] settles
    (it rejects when the body is not JSON). *)
Record response : Type := Response {
  status : Z;
  json_body : outcome response_data
}.

(** [response.ok]: the status is in the range 200-299. *)
Definition ok (r : response) : bool := (200 <=? status r) && (status r <=? 299).

(** [sendMail]: [transport] is how the [fetch] to the mail service settles. *)
Definition sendMail (transport : outcome response)
    (mailRecipient mailSubject mailText : string) : IO response :=
  try_catch (fun w => (transport, w))
            (fun error => throw (new_Error (message error))).

Definition response_json (r : response) : IO response_data :=
  fun w => (json_body r, w).

(** [responseData.error]: reading a property of [null] throws a TypeError
    (the message is the one of V8). *)
Definition rd_error (responseData : response_data) : IO (option string) :=
  match responseData with
  | JsonNull => throw (new_Error "Cannot read properties of null (reading 'error')")
  | ResponseData error => ret error
  end.

End MailService.

(* ===================================================================== *)
(** * The HTTP responses *)
(* ===================================================================== *)

Inductive payload : Type :=
| NoData
| EmptyArray
| UserData (user : operator_row).

(** [res.status(http_status).json({status, success, message, data})];
    a property that is absent or [undefined] is [None] (resp. [NoData]). *)
Record reply : Type := Reply {
  http_status : Z;
  body_status : option Z;
  success : bool;
  reply_message : option string;
  data : payload
}.

Definition res_json (status : Z) (ok : bool) (m : string) : reply :=
  Reply status None ok (Some m) NoData.

(* ===================================================================== *)
(** * localStrategy.js, controllers/auth_controller.js, routes/auth_routes.js *)
(* ===================================================================== *)

(** How [bcrypt.compare(data, hash, callback)] calls back. *)
Inductive compared : Type :=
| CompareError (error : js_error)
| IsMatch (isMatch : bool).

(** What the strategy hands to [done]. *)
Inductive verified : Type :=
| Done (error : option js_error) (user : option operator_row) (info : string).

Section Gateway.

(** [validateEmail] of the validation service (it asks deep-email-validator). *)
Variable validateEmail : string -> bool.
(** [bcrypt.hash(password, saltRounds)] *)
Variable bcrypt_hash : string -> string.
(** bcrypt's comparison of a password with a hash string. *)
Variable bcrypt_check : string -> string -> bool.
(** [jwt.sign({userId}, JWT_SECRET, {expiresIn: '1h'})] at a given time;
    [userId] is [None] when the value is [undefined]. *)
Variable jwt_sign : option Z -> Z -> string.
(** [root] of database_service.js. *)
Variable root : string.

Import DatabaseService MailService.

(** [bcrypt.compare]: the library requires both arguments and calls back
    with an error when the hash is [null]. *)
Definition bcrypt_compare (data : string) (hash : option string) : compared :=
  match hash with
  | None => CompareError (new_Error "data and hash arguments required")
  | Some h => IsMatch (bcrypt_check data h)
  end.

(** The verify callback of localStrategy.js. *)
Definition localStrategy (email password : string) : IO verified :=
  try_catch
    (operator <- select_first "auth.operators" operators
                   (fun r => String.eqb (o_email r) email) ;;
     match operator with
     | None => ret (Done None None "Operator not found")
     | Some operator =>
         match bcrypt_compare password (o_password operator) with
         | CompareError error => ret (Done (Some error) None "Bcrypt error")
         | IsMatch false => ret (Done None None "Password does not match")
         | IsMatch true => ret (Done None (Some operator) "Successfully authenticated")
         end
     end)
    (fun error => ret (Done (Some error) None "knex error")).

(** [passport.authenticate('local', callback)]: the strategy fails without
    calling the verify callback when a credential is missing; an error or a
    missing user reaches the callback without a user. *)
Definition passport_authenticate (email password : string) : IO (option operator_row) :=
  if String.eqb email "" || String.eqb password "" then ret None
  else
    v <- localStrategy email password ;;
    match v with
    | Done (Some _) _ _ => ret None
    | Done None None _ => ret None
    | Done None (Some user) _ => ret (Some user)
    end.

(** [authenticatedUser.id]: the row the strategy selects has the properties
    [_id], [email], [password] and [operator]; it has no property [id], and
    the value is [undefined]. *)
Definition property_id (user : operator_row) : option Z := None.

(** [req.login(user, callback)]: passport writes the session [sid] with the
    user to the session store, which connect-session-knex keeps in the
    database of the service.  The exchange with the store is a round trip;
    when it fails the callback gets the error and the store is unchanged.
    (The request is taken to come without a session of its own.) *)
Definition req_login (sid : string) (user : operator_row) : IO unit :=
  round_trip (Insert "sessions") ;;
  fun w => (Resolved tt,
            set_sessions (<[sid := Session (Some user) None]> (sessions w)) w).

(** [req.session.token = value] *)
Definition set_session_token (sid : string) (value : string) : IO unit :=
  fun w =>
    (Resolved tt,
     set_sessions
       (alter (fun s => Session (passport_user s) (Some value)) sid (sessions w)) w).

(** [login].  A rejection stands for [next(error)]: the error of
    [req.login] is handed to Express and the handler sends no response. *)
Definition login (now : Z) (sid : string) (email password : string) : IO reply :=
  authenticatedUser <- passport_authenticate email password ;;
  match authenticatedUser with
  | None => ret (res_json 400 false "You shall not pass!")
  | Some authenticatedUser =>
      req_login sid authenticatedUser ;;
      set_session_token sid (jwt_sign (property_id authenticatedUser) now) ;;
      ret (Reply 200 None true (Some "Login successful") (UserData authenticatedUser))
  end.

(** [req.user], as express-session and [passport.session()] restore it from
    the session cookie. *)
Definition req_user (cookie : option string) (w : world) : option operator_row :=
  match cookie with
  | Some sid =>
      match sessions w !! sid with
      | Some s => passport_user s
      | None => None
      end
  | None => None
  end.

(** The route guard of auth_routes.js. *)
Definition isAuthenticated (cookie : option string) (next : IO reply) : IO reply :=
  fun w =>
    if bool_decide (is_Some (req_user cookie w)) then next w
    else (Resolved (Reply 403 (Some 403) false
                      (Some "Unauthenticated. Please log in first") EmptyArray), w).

(** [req.logout] and [req.session.destroy]: the session leaves the store. *)
Definition logout (cookie : option string) : IO reply :=
  fun w =>
    (Resolved (res_json 200 true "The operator has been logged out"),
     match cookie with
     | Some sid => set_sessions (delete sid (sessions w)) w
     | None => w
     end).

(** [catch (error) { return res.status(500).json({success: false, message}) }] *)
Definition responding (body : IO reply) : IO reply :=
  try_catch body (fun error => ret (res_json 500 false (message error))).

(** [token] is the value [generateToken] draws, [transport] the way the mail
    service answers. *)
Definition forgot (now : Z) (token : string) (transport : outcome response)
    (mailRecipient : string) : IO reply :=
  responding
    (let validEmail := validateEmail mailRecipient in
     if negb validEmail then throw (new_Error "That's not a valid email!")
     else
       operator <- getOperatorByEmail mailRecipient ;;
       match operator with
       | None => ret (res_json 200 true "If that was your email, you will soon get mail.")
       | Some operator =>
           let link := generateLink root "forgot" token in
           let mailSubject :=
             "Of course I forget things, it's not like I have an elephant for a brain." in
           let mailText :=
             ("You have requested password reset for your apebase account. If it wasn't you, please let us know. Here is your link:"
              ++ Validation.nl ++ Validation.nl ++ "    " ++ link)%string in
           setResetToken now (o_id operator) token ;;
           response <- sendMail transport mailRecipient mailSubject mailText ;;
           responseData <- response_json response ;;
           if ok response
           then ret (res_json 200 true "If that was your email, you will soon get mail.")
           else
             error <- rd_error responseData ;;
             ret (Reply (status response) None false error NoData)
       end).

Definition password (now : Z) (token password : string) : IO reply :=
  responding
    (let validPassword := Validation.validatePassword password in
     if negb validPassword then throw (new_Error "That's not a valid password!")
     else
       tokenRecord <- getResetTokenRecord now token ;;
       match tokenRecord with
       | None =>
           throw (new_Error "This token isn't valid. Tokens time out after an hour.")
       | Some tokenRecord =>
           let hash := bcrypt_hash password in
           updatePassword hash tokenRecord ;;
           ret (res_json 200 true "Password updated successfully")
       end).

(** [user_id] is [req.user._id]. *)
Definition operator (user_id : Z) (operator : string) : IO reply :=
  responding
    (let validOperator := Validation.validateOperator operator in
     if negb validOperator then throw (new_Error "That's not a valid name.")
     else
       operatorRecord <- getOperatorByName operator ;;
       match operatorRecord with
       | Some _ => throw (new_Error "This name is taken.")
       | None =>
           updateOperator operator user_id ;;
           ret (res_json 200 true ("Stand and be recognized " ++ operator)%string)
       end).

Definition probe (operator : string) : IO reply :=
  responding
    (operatorRecord <- getOperatorByName operator ;;
     match operatorRecord with
     | Some _ => throw (new_Error "This name is taken.")
     | None => ret (res_json 200 true ("Name " ++ operator ++ " is available")%string)
     end).

Definition invite (now : Z) (token : string) (transport : outcome response)
    (mailRecipient : string) : IO reply :=
  responding
    (let validEmail := validateEmail mailRecipient in
     if negb validEmail then throw (new_Error "That's not a valid email!")
     else
       operatorRecord <- getOperatorByEmail mailRecipient ;;
       match operatorRecord with
       | Some _ => throw (new_Error "This operator has already joined.")
       | None =>
           let link := generateLink root "welcome" token in
           let mailSubject := "The fate of our digital world rests in your hands." in
           let mailText :=
             ("A friend has invited you to join the apebase. Here is your link:"
              ++ Validation.nl ++ Validation.nl ++ "    " ++ link)%string in
           setInviteToken now mailRecipient token ;;
           sendMail transport mailRecipient mailSubject mailText ;;
           ret (res_json 200 true "Your invitation has been extended.")
       end).

Definition welcome (token : string) : IO reply :=
  responding
    (operator <- getOperatorByToken token ;;
     match operator with
     | None => throw (new_Error "There is no invitation for this token.")
     | Some operator => ret (res_json 200 true (o_email (snd operator)))
     end).

Definition init (token password operator : string) : IO reply :=
  responding
    (let validOperator := Validation.validateOperator operator in
     if negb validOperator then throw (new_Error "That's not a valid name.")
     else
       existingOperator <- getOperatorByName operator ;;
       match existingOperator with
       | Some _ => throw (new_Error "This name is taken.")
       | None =>
           let validPassword := Validation.validatePassword password in
           if negb validPassword then throw (new_Error "That's not a valid password.")
           else
             tokenRecord <- getInviteTokenRecord token ;;
             match tokenRecord with
             | None => throw (new_Error "This invitation is invalid.")
             | Some tokenRecord =>
                 let hash := bcrypt_hash password in
                 initOperator operator hash tokenRecord ;;
                 ret (res_json 200 true "Operator successfully initialized.")
             end
       end).

(** [router.get('/logout', isAuthenticated, authController.logout)] *)
Definition GET_logout (cookie : option string) : IO reply :=
  isAuthenticated cookie (logout cookie).

End Gateway.

(* ===================================================================== *)
(** * The validation service with its own e-mail check *)
(* ===================================================================== *)

(** The second copy of the validation service in the repository validates
    an address itself, with [isValidEmail], where the first asks
    deep-email-validator.  Its password and name validators are the ones of
    [Validation]. *)
Module EmailValidation.
Import Validation.

(** [s.startsWith(prefix)] *)
Fixpoint startsWith (prefix s : string) : bool :=
  match prefix, s with
  | EmptyString, _ => true
  | String a p, String b r => Ascii.eqb a b && startsWith p r
  | String _ _, EmptyString => false
  end.

(** [s.endsWith(suffix)]: the suffix is one of the tails of [s]. *)
Fixpoint endsWith (suffix s : string) : bool :=
  String.eqb suffix s
  || match s with
     | EmptyString => false
     | String _ r => endsWith suffix r
     end.

(** [s.includes(needle)]: the needle starts at some position of [s]. *)
Fixpoint includes (needle s : string) : bool :=
  startsWith needle s
  || match s with
     | EmptyString => false
     | String _ r => includes needle r
     end.

(** [s.split(sep)] for a separator of one character: never an empty
    array, [''.split(sep)] is [['']]. *)
Fixpoint split (sep : ascii) (s : string) : list string :=
  match s with
  | EmptyString => [EmptyString]
  | String c r =>
      if Ascii.eqb c sep then EmptyString :: split sep r
      else match split sep r with
           | p :: ps => String c p :: ps
           | [] => [String c EmptyString]
           end
  end.

(** [/^[...]+$/.test(s)]: [s] is not empty and all of it is in the class. *)
Definition regex_test_whole (cls : char_class) (s : string) : bool :=
  negb (String.eqb s "") && forallb (class_matches cls) (list_ascii_of_string s).

(** [a-zA-Z0-9!#$%&'*+/=?^_`{|}~.-] *)
Definition localPartPattern : char_class :=
  CharClass false
    [Rng "a" "z"; Rng "A" "Z"; Rng "0" "9";
     Chr "!"; Chr "#"; Chr "$"; Chr "%"; Chr "&"; Chr "'"; Chr "*"; Chr "+";
     Chr "/"; Chr "="; Chr "?"; Chr "^"; Chr "_"; Chr "`"; Chr "{"; Chr "|";
     Chr "}"; Chr "~"; Chr "."; Chr "-"].

(** [a-zA-Z0-9.-] *)
Definition domainPartPattern : char_class :=
  CharClass false [Rng "a" "z"; Rng "A" "Z"; Rng "0" "9"; Chr "."; Chr "-"].

(** [isValidEmail(email)].  After the test for [@] the array [parts] has at
    least two elements, so the last branch is never taken. *)
Definition isValidEmail (email : string) : bool :=
  if String.eqb email "" then false
  else if negb (includes "@" email) then false
  else
    match split "@" email with
    | localPart :: domainPart :: _ =>
        if (String.length localPart =? 0)%nat then false
        else if negb (includes "." domainPart) then false
        else
          let domainParts := split "." domainPart in
          let tld := List.last domainParts "" in
          if (String.length tld <? 2)%nat then false
          else if includes ".." domainPart then false
          else if startsWith "-" domainPart || endsWith "-" domainPart then false
          else if negb (regex_test_whole localPartPattern localPart) then false
          else if negb (regex_test_whole domainPartPattern domainPart) then false
          else true
    | _ => false
    end.

Definition validEmail (value : string) : verdict :=
  {| valid := isValidEmail value;
     message := "That doesn't seem to be right." |}.

Definition validateEmail (operator : string) : bool :=
  no_errors (run_validators [validEmail] operator).

End EmailValidation.

(* ===================================================================== *)
(** * app.js: the start of the server *)
(* ===================================================================== *)

Module App.

(** [process.env[name]] is taken as true when it is set and not empty. *)
Definition set_in (env : gmap string string) (name : string) : bool :=
  match env !! name with
  | Some value => negb (String.eqb value "")
  | None => false
  end.

(** The port is text from the environment or the number of the default. *)
Inductive port : Type :=
| FromEnvironment (value : string)
| Default (n : Z).

(** [process.env.SERVER_PORT || 5001] *)
Definition PORT (env : gmap string string) : port :=
  match env !! "SERVER_PORT" with
  | Some value => if String.eqb value "" then Default 5001 else FromEnvironment value
  | None => Default 5001
  end.

Definition requiredEnvVars : list string :=
  ["JWT_SECRET"; "COOKIE_SECRET"; "DB_NAME"; "DB_USER"; "DB_PASSWORD"; "DB_PORT";
   "SERVER_PORT"; "PRODUCTION_MAIL"; "PRODUCTION_CLIENT"; "AUTH_SCHEMA"].

(** How the start ends: [process.exit(code)] after the line written to
    [console.error], or the server listening. *)
Inductive started : Type :=
| Exits (code : Z) (reported : string)
| Listens (on : port).

(** The loop over the required variables, then the rest of the start. *)
Fixpoint check_required (env : gmap string string) (names : list string)
    (rest : started) : started :=
  match names with
  | [] => rest
  | envVar :: names' =>
      if negb (set_in env envVar)
      then Exits 1 ("Missing required environment variable: " ++ envVar)%string
      else check_required env names' rest
  end.

(** The environment is [process.env] after dotenv has loaded the file. *)
Definition start (env : gmap string string) : started :=
  check_required env requiredEnvVars (Listens (PORT env)).

End App.


(* ===================================================================== *)
(** * routes/auth_routes.js: the guarded routes *)
(* ===================================================================== *)

Section Routes.

Variable validateEmail : string -> bool.
Variable root : string.

Import DatabaseService MailService.

(** The handler [operator] on a request.  [req.user._id] is read when the
    arguments of [updateOperator] are evaluated, after the two checks; on a
    request without a user that read throws a TypeError, which the [catch]
    of the handler answers. *)
Definition operator_of (user : option operator_row) (name : string) : IO reply :=
  match user with
  | Some user => operator (o_id user) name
  | None =>
      responding
        (let validOperator := Validation.validateOperator name in
         if negb validOperator then throw (new_Error "That's not a valid name.")
         else
           operatorRecord <- getOperatorByName name ;;
           match operatorRecord with
           | Some _ => throw (new_Error "This name is taken.")
           | None =>
               throw (new_Error "Cannot read properties of undefined (reading '_id')")
           end)
  end.

(** [router.post('/operator', isAuthenticated, authController.operator)] *)
Definition POST_operator (cookie : option string) (name : string) : IO reply :=
  isAuthenticated cookie (fun w => operator_of (req_user cookie w) name w).

(** [router.post('/probe', isAuthenticated, authController.probe)] *)
Definition POST_probe (cookie : option string) (name : string) : IO reply :=
  isAuthenticated cookie (probe name).

(** [router.post('/invite', isAuthenticated, authController.invite)] *)
Definition POST_invite (cookie : option string) (now : Z) (token : string)
    (transport : outcome response) (mailRecipient : string) : IO reply :=
  isAuthenticated cookie (invite validateEmail root now token transport mailRecipient).

End Routes.
(* ===================================================================== *)
(** * Vocabulary of the statements *)
(* ===================================================================== *)

(** The first fault of the plan decides a round trip. *)
Definition next_fault (w : world) : outcome unit :=
  match faults w with
  | Some error :: _ => Rejected error
  | _ => Resolved tt
  end.

(** A computation that runs inside the open transaction: it leaves the
    committed rows and the transaction's promise alone, it settles, and when
    it resolves the working copy went from [t] to some [t'] with [P t a t']. *)
Definition transacting {A : Type} (m : IO A) (P : tables -> A -> tables -> Prop) : Prop :=
  forall w t,
    transaction w = Some t -> settled w = None ->
    committed (snd (m w)) = committed w
    /\ settled (snd (m w)) = None
    /\ match fst (m w) with
       | Resolved a => exists t', transaction (snd (m w)) = Some t' /\ P t a t'
       | Rejected _ => True
       | Pending => False
       end.

(** What the two writes of each operation do to the tables. *)
Definition invited (currentTime : Z) (email token : string) (before after : tables) : Prop :=
  exists operator_id token_id,
    after = Tables (operators before ++ [OperatorRow operator_id email None "New Operator"])
                   (tokens before ++ [TokenRow token_id operator_id token currentTime]).






(** ** Worlds *)

(** The world after a round trip that met no fault and changed no row. *)
Definition answered (q : query) (w : world) : world :=
  set_wire [] (q :: log w) w.

(** The world after a committed transaction that made the round trips [qs]
    (the latest first) and left the tables [t]. *)
Definition transacted (qs : list query) (t : tables) (w : world) : world :=
  World (catalog_of w) t (operators_id_seq w) (tokens_id_seq w) None (Some None) []
        (qs ++ log w) (sessions w).

(** A world as the deployment has it when the driver meets no fault: the
    catalog is the one [initDataTables] created, the sequences are ahead
    of the keys in use and no two operators share a primary key. *)
Record healthy (w : world) : Prop := Healthy {
  healthy_faults : faults w = [];
  healthy_catalog : catalog_of w = initial_catalog;
  healthy_operators : Forall (fun r => o_id r < operators_id_seq w) (operators (committed w));
  healthy_tokens : Forall (fun r => t_id r < tokens_id_seq w) (tokens (committed w));
  healthy_keys : NoDup (map o_id (operators (committed w)))
}.

(** ** Replies *)

Definition you_shall_not_pass : reply := res_json 400 false "You shall not pass!".

Definition logged_out : reply := res_json 200 true "The operator has been logged out".

Definition unauthenticated : reply :=
  Reply 403 (Some 403) false (Some "Unauthenticated. Please log in first") EmptyArray.

Definition password_updated : reply := res_json 200 true "Password updated successfully".

Definition token_refused : reply :=
  res_json 500 false "This token isn't valid. Tokens time out after an hour.".

Definition invitation_extended : reply :=
  res_json 200 true "Your invitation has been extended.".

Definition not_a_valid_name : reply := res_json 500 false "That's not a valid name.".

Definition not_a_valid_address : reply := res_json 500 false "That's not a valid email!".

(** What [forgot] answers when the body of the mail service's response is
    [null] and its [error] is read. *)
Definition null_body : reply :=
  res_json 500 false "Cannot read properties of null (reading 'error')".

Definition mail_on_its_way : reply :=
  res_json 200 true "If that was your email, you will soon get mail.".

Definition rate_limited : reply :=
  res_json 500 false
    "Take it easy! For your safety, only one password reset request per hour.".

Definition already_joined : reply := res_json 500 false "This operator has already joined.".

Definition name_taken : reply := res_json 500 false "This name is taken.".

Definition operator_initialized : reply :=
  res_json 200 true "Operator successfully initialized.".

(** ** The reset window *)

(** A token row that the reset lookup accepts at time [now]: the value
    matches and less than an hour has passed since it was created. *)
Definition within_the_hour (now : Z) (token : string) (r : token_row) : Prop :=
  t_token r = token /\ now - t_created_at r < DatabaseService.HOUR.

(** ** The checks of [init], in the order the specification gives *)

Inductive init_check : Type := NameAvailability | PasswordShape | TokenValidity.

Definition init_order : list init_check :=
  [NameAvailability; PasswordShape; TokenValidity].

(** The error a check reports on the given input, if it fails. *)
Definition init_check_error (t : tables) (token password operator : string)
    (c : init_check) : option string :=
  match c with
  | NameAvailability =>
      if negb (Validation.validateOperator operator)
      then Some "That's not a valid name."
      else if existsb (fun r => String.eqb (o_operator r) operator) (operators t)
           then Some "This name is taken."
           else None
  | PasswordShape =>
      if Validation.validatePassword password then None
      else Some "That's not a valid password."
  | TokenValidity =>
      if existsb (fun r => String.eqb (t_token r) token) (tokens t) then None
      else Some "This invitation is invalid."
  end.

(** The round trips a check needs. *)
Definition init_check_queries (operator : string) (c : init_check) : list query :=
  match c with
  | NameAvailability =>
      if Validation.validateOperator operator then [Select "operators"] else []
  | PasswordShape => []
  | TokenValidity => [Select "auth.tokens"]
  end.

(** Run checks in order and stop at the first that fails: the error, if
    any, and the checks that were evaluated. *)
Fixpoint run_checks (error_of : init_check -> option string) (checks : list init_check)
  : option string * list init_check :=
  match checks with
  | [] => (None, [])
  | c :: rest =>
      match error_of c with
      | Some m => (Some m, [c])
      | None => let '(r, evaluated) := run_checks error_of rest in (r, c :: evaluated)
      end
  end.

(** ** Stand-ins for the external functions, to evaluate concrete runs *)

Definition sample_validateEmail (s : string) : bool :=
  existsb (Ascii.eqb "@") (list_ascii_of_string s).

Definition sample_hash (password : string) : string := ("$2b$10$" ++ password)%string.

Definition sample_check (password hash : string) : bool :=
  String.eqb (sample_hash password) hash.

Definition sample_sign (userId : option Z) (now : Z) : string := "signed claim".

Definition sample_root : string := "http://localhost:3000".

(** The database right after [node init_tables]. *)
Definition genesis : world := initDataTables "genesis@apebase.app" "Genesis".

(** A mail service that accepts the request. *)
Definition mail_accepted : outcome MailService.response :=
  Resolved (MailService.Response 200 (Resolved (MailService.ResponseData None))).

(** The genesis database after an invitation of carol@example.com at time
    1000, and after a reset request of the genesis operator at time 1000. *)
Definition invited_world : world :=
  snd (invite sample_validateEmail sample_root 1000 "a1b2" mail_accepted
         "carol@example.com" genesis).

Definition reset_requested : world :=
  snd (forgot sample_validateEmail sample_root 1000 "5f1d" mail_accepted
         "genesis@apebase.app" genesis).

(** A catalog in which [tokens._fk_operator] was declared [unique()], which
    [createTable] never does. *)
Definition catalog_with_unique_operator : catalog :=
  {| operators_def := createTable operatorModel;
     tokens_def :=
       map (fun '(column, b) =>
              if String.eqb column "_fk_operator" then (column, unique b) else (column, b))
           (createTable tokenModel) |}.

(** The invited operator after initialisation with the name Carol, and after
    a login with those credentials, which opens the session [c0ffee]. *)
Definition initialized_world : world :=
  snd (init sample_hash "a1b2" "Abcdef1!" "Carol" invited_world).

Definition logged_in : world :=
  snd (login sample_check sample_sign 3000 "c0ffee" "carol@example.com" "Abcdef1!"
         initialized_world).

(** [reset_requested] in a database whose catalog has the unique index. *)
Definition reset_requested_with_unique_index : world :=
  World catalog_with_unique_operator (committed reset_requested)
        (operators_id_seq reset_requested) (tokens_id_seq reset_requested)
        None None [] [] ∅.

(* ===================================================================== *)
(** * Vocabulary of the further statements *)
(* ===================================================================== *)

(** The entry of a column in a model: the first with that name. *)
Fixpoint model_column (columns : list (string * column_model)) (column : string)
  : option column_model :=
  match columns with
  | [] => None
  | (name, c) :: rest =>
      if String.eqb name column then Some c else model_column rest column
  end.

(** ** Keys and sequences *)

(** The keys of the tables are distinct and below the values the sequences
    will hand out next. *)
Record keys_in_order (next_operator next_token : Z) (t : tables) : Prop := KeysInOrder {
  operator_keys_below : Forall (fun r => o_id r < next_operator) (operators t);
  token_keys_below : Forall (fun r => t_id r < next_token) (tokens t);
  operator_keys_distinct : List.NoDup (map o_id (operators t));
  token_keys_distinct : List.NoDup (map t_id (tokens t))
}.

(** A world is consistent when that holds of the committed tables and of
    the working copy of the open transaction. *)
Definition consistent (w : world) : Prop :=
  keys_in_order (operators_id_seq w) (tokens_id_seq w) (committed w)
  /\ forall t, transaction w = Some t ->
               keys_in_order (operators_id_seq w) (tokens_id_seq w) t.

(** A computation keeps worlds consistent, however it settles. *)
Definition preserving {A : Type} (m : IO A) : Prop :=
  forall w, consistent w -> consistent (snd (m w)).

(** ** More replies *)

Definition not_a_valid_email : reply := res_json 500 false "That's not a valid email!".

Definition no_invitation : reply :=
  res_json 500 false "There is no invitation for this token.".

Definition invitation_invalid : reply := res_json 500 false "This invitation is invalid.".

Definition name_available (name : string) : reply :=
  res_json 200 true ("Name " ++ name ++ " is available")%string.

Definition recognized (name : string) : reply :=
  res_json 200 true ("Stand and be recognized " ++ name)%string.

Definition login_successful (user : operator_row) : reply :=
  Reply 200 None true (Some "Login successful") (UserData user).

(** What a handler answers when the driver fails: the message of the error. *)
Definition failed_with (error : js_error) : reply := res_json 500 false (message error).


(** ** Sessions *)

(** A computation leaves the session store alone, however it settles. *)
Definition session_free {A : Type} (m : IO A) : Prop :=
  forall w, sessions (snd (m w)) = sessions w.
(* ===================================================================== *)
(** * Properties of the validation service *)
(* ===================================================================== *)

Module ValidationFacts.
Import Validation.

(** The loop reports no error exactly when every validator accepts. *)
Lemma fold_errors_empty (value : string) (validators : list (string -> verdict))
    (errors : gmap Z (list string)) :
  fold_left
    (fun errors validator =>
       let result := validator value in
       if negb (valid result)
       then <[0 := default [] (errors !! 0) ++ [message result]]> errors
       else errors)
    validators errors = ∅
  <-> errors = ∅ /\ forallb (fun validator => valid (validator value)) validators = true.
Proof.
  revert errors.
  induction validators as [|v vs IH]; intros errors; simpl.
  - tauto.
  - rewrite IH. destruct (valid (v value)); simpl.
    + tauto.
    + split.
      * intros [H _]. exfalso. exact (insert_non_empty _ _ _ H).
      * intros [_ H]. discriminate H.
Qed.

Lemma no_errors_forallb (validators : list (string -> verdict)) (value : string) :
  no_errors (run_validators validators value) = true
  <-> forallb (fun validator => valid (validator value)) validators = true.
Proof.
  unfold no_errors. rewrite Nat.eqb_eq, map_size_empty_iff.
  unfold run_validators. rewrite fold_errors_empty. tauto.
Qed.

Lemma one_ofb_spec (alphabet : string) (c : ascii) :
  one_ofb alphabet c = true <-> one_of alphabet c.
Proof.
  unfold one_ofb, one_of. rewrite existsb_exists. split.
  - intros [d [Hin Heq]]. apply Ascii.eqb_eq in Heq. subst. exact Hin.
  - intros Hin. exists c. split; [exact Hin | apply Ascii.eqb_refl].
Qed.

Ltac every_character c :=
  destruct c as [[] [] [] [] [] [] [] []]; reflexivity.

Lemma lowercase_class (c : ascii) :
  class_matches re_lowercase c = one_ofb lowercase_letters c.
Proof. every_character c. Qed.

Lemma uppercase_class (c : ascii) :
  class_matches re_uppercase c = one_ofb uppercase_letters c.
Proof. every_character c. Qed.

Lemma digit_class (c : ascii) :
  class_matches re_digit c = one_ofb decimal_digits c.
Proof. every_character c. Qed.

Lemma special_class (c : ascii) :
  class_matches re_special c = one_ofb special_characters c.
Proof. every_character c. Qed.

Lemma not_allowed_class (c : ascii) :
  class_matches re_not_allowed c
  = negb (one_ofb lowercase_letters c || one_ofb uppercase_letters c
          || one_ofb decimal_digits c || Ascii.eqb c " "
          || one_ofb special_characters c).
Proof. every_character c. Qed.

Lemma regex_test_contains (cls : char_class) (alphabet value : string) :
  (forall c, class_matches cls c = one_ofb alphabet c) ->
  regex_test cls value = true <-> contains_one_of alphabet value.
Proof.
  intros Hcls. unfold regex_test, contains_one_of. rewrite existsb_exists.
  split; intros [c [Hin Hc]]; exists c; split; auto.
  - apply one_ofb_spec. rewrite <- Hcls. exact Hc.
  - rewrite Hcls. apply one_ofb_spec. exact Hc.
Qed.

Lemma only_allowed_spec (value : string) :
  valid (onlyAllowedChars value) = true <->
  forall c, In c (list_ascii_of_string value) ->
    one_of lowercase_letters c \/ one_of uppercase_letters c \/
    one_of decimal_digits c \/ is_space c \/ one_of special_characters c.
Proof.
  unfold onlyAllowedChars, regex_test, is_space; simpl.
  rewrite negb_true_iff. split.
  - intros Hnone c Hin.
    assert (Hc : class_matches re_not_allowed c = false).
    { destruct (class_matches re_not_allowed c) eqn:E; auto.
      assert (existsb (class_matches re_not_allowed) (list_ascii_of_string value) = true)
        by (apply existsb_exists; eauto).
      congruence. }
    rewrite not_allowed_class in Hc. apply negb_false_iff in Hc.
    repeat rewrite orb_true_iff in Hc.
    rewrite !one_ofb_spec, Ascii.eqb_eq in Hc. tauto.
  - intros Hall.
    destruct (existsb _ (list_ascii_of_string value)) eqn:E; auto.
    apply existsb_exists in E. destruct E as [c [Hin Hc]].
    rewrite not_allowed_class in Hc. apply negb_true_iff in Hc.
    specialize (Hall c Hin).
    rewrite <- !one_ofb_spec, <- (Ascii.eqb_eq c " ") in Hall.
    do 4 (apply orb_false_iff in Hc; destruct Hc as [Hc ?]).
    destruct Hall as [H' | [H' | [H' | [H' | H']]]]; congruence.
Qed.

(** C8. [validatePassword p] is true exactly when [p] has a lowercase
    letter, an uppercase letter, a digit and one of the special characters
    [!@#$%^&*()_+-=[]{};:,.?], consists only of letters, digits, spaces and
    those special characters, and has between 8 and 20 characters; so
    [validatePassword "weak"] is false and [validatePassword "Abcdef1!"]
    is true. *)
Theorem validatePassword_rules :
  (forall p : string, validatePassword p = true <-> password_rules p)
  /\ validatePassword "weak" = false
  /\ validatePassword "Abcdef1!" = true.
Proof.
  split; [| split; vm_compute; reflexivity].
  intros p. unfold validatePassword. rewrite no_errors_forallb.
  unfold password_validators. cbn [forallb].
  rewrite !andb_true_iff.
  pose proof (regex_test_contains re_lowercase lowercase_letters p lowercase_class) as Hl.
  pose proof (regex_test_contains re_uppercase uppercase_letters p uppercase_class) as Hu.
  pose proof (regex_test_contains re_digit decimal_digits p digit_class) as Hd.
  pose proof (regex_test_contains re_special special_characters p special_class) as Hs.
  pose proof (only_allowed_spec p) as Ha.
  change (valid (containsLowercase p)) with (regex_test re_lowercase p).
  change (valid (containsUppercase p)) with (regex_test re_uppercase p).
  change (valid (containsNumber p)) with (regex_test re_digit p).
  change (valid (containsSpecialChar p)) with (regex_test re_special p).
  change (valid (atLeastEightCharacters p)) with (8 <=? String.length p)%nat.
  change (valid (atMostTwentyCharacters p)) with (String.length p <=? 20)%nat.
  rewrite Hl, Hu, Hd, Hs, Ha, !Nat.leb_le.
  split.
  - intros (H1 & H2 & H3 & H4 & H5 & H6 & H7 & _). constructor; auto.
  - intros [H1 H2 H3 H4 H5 [H6 H7]]. tauto.
Qed.

End ValidationFacts.

(* ===================================================================== *)
(** * Properties of the storage layer *)
(* ===================================================================== *)

Module StorageFacts.
Import DatabaseService.

Lemma insert_operator_cases def row rows :
  insert_operator def row rows = Resolved (rows ++ [row])
  \/ exists error, insert_operator def row rows = Rejected error.
Proof.
  unfold insert_operator.
  repeat match goal with |- context [if ?b then _ else _] => destruct b end; eauto.
Qed.

Lemma insert_token_cases def row rows :
  insert_token def row rows = Resolved (rows ++ [row])
  \/ exists error, insert_token def row rows = Rejected error.
Proof.
  unfold insert_token.
  repeat match goal with |- context [if ?b then _ else _] => destruct b end; eauto.
Qed.

Lemma update_operators_cases def id u rows :
  update_operators def id u rows
  = Resolved (map (fun r => if o_id r =? id then apply_update u r else r) rows)
  \/ exists error, update_operators def id u rows = Rejected error.
Proof.
  unfold update_operators.
  repeat match goal with |- context [if ?b then _ else _] => destruct b end; eauto.
Qed.

Lemma round_trip_run q w :
  round_trip q w = (next_fault w, set_wire (tl (faults w)) (q :: log w) w).
Proof.
  unfold round_trip, next_fault. destruct (faults w) as [|[e|] rest]; reflexivity.
Qed.


Lemma next_fault_cases w :
  next_fault w = Resolved tt \/ exists error, next_fault w = Rejected error.
Proof. unfold next_fault. destruct (faults w) as [|[e|] rest]; eauto. Qed.











(** ** Runs that meet no fault *)

Ltac run_io :=
  cbv [setInviteToken setResetToken updatePassword initOperator updateOperator
       rethrow knex_transaction try_catch bind ret throw
       insert_into_operators insert_into_tokens update_operators_where_id
       delete_from_tokens select_first trx_commit trx_rollback
       round_trip on_tables nextval_operators nextval_tokens
       set_wire set_transaction set_committed set_operators_id_seq
       set_tokens_id_seq set_sessions answered transacted
       catalog_of committed operators_id_seq tokens_id_seq transaction settled
       faults log sessions operators tokens operators_def tokens_def
       insert_operator insert_token initial_catalog default from_option].

Lemma select_first_quiet {A : Type} from (rows : tables -> list A) p w :
  faults w = [] ->
  select_first from rows p w
  = (Resolved (List.find p (rows (committed w))), answered (Select from) w).
Proof.
  intros Hf. unfold select_first, bind, on_tables. rewrite round_trip_run.
  unfold next_fault. rewrite Hf. reflexivity.
Qed.

Lemma getOperatorByEmail_quiet email w :
  faults w = [] ->
  getOperatorByEmail email w
  = (Resolved (List.find (fun r => String.eqb (o_email r) email) (operators (committed w))),
     answered (Select "operators") w).
Proof.
  intros Hf. unfold getOperatorByEmail, rethrow, try_catch.
  rewrite select_first_quiet by assumption. reflexivity.
Qed.

Lemma getOperatorByName_quiet name w :
  faults w = [] ->
  getOperatorByName name w
  = (Resolved (List.find (fun r => String.eqb (o_operator r) name) (operators (committed w))),
     answered (Select "operators") w).
Proof.
  intros Hf. unfold getOperatorByName, rethrow, try_catch.
  rewrite select_first_quiet by assumption. reflexivity.
Qed.

Lemma getOperatorByToken_quiet token w :
  faults w = [] ->
  getOperatorByToken token w
  = (Resolved (List.find (fun r => String.eqb (t_token (fst r)) token)
                 (join_tokens_operators (committed w))),
     answered (Select "tokens") w).
Proof.
  intros Hf. unfold getOperatorByToken, rethrow, try_catch.
  rewrite select_first_quiet by assumption. reflexivity.
Qed.

Lemma getResetTokenRecord_quiet now token w :
  faults w = [] ->
  getResetTokenRecord now token w
  = (Resolved (List.find (fun r => String.eqb (t_token r) token
                                   && (now - HOUR <? t_created_at r))
                 (tokens (committed w))),
     answered (Select "auth.tokens") w).
Proof.
  intros Hf. unfold getResetTokenRecord, rethrow, try_catch.
  rewrite select_first_quiet by assumption. reflexivity.
Qed.

Lemma getInviteTokenRecord_quiet token w :
  faults w = [] ->
  getInviteTokenRecord token w
  = (Resolved (List.find (fun r => String.eqb (t_token r) token) (tokens (committed w))),
     answered (Select "auth.tokens") w).
Proof.
  intros Hf. unfold getInviteTokenRecord, rethrow, try_catch.
  rewrite select_first_quiet by assumption. reflexivity.
Qed.

(** In the deployed catalog an update of a password or a name meets no
    constraint, so the transaction commits. *)
Lemma update_then_delete_quiet (u : operator_update) (record : token_row) w :
  faults w = [] -> catalog_of w = initial_catalog ->
  rethrow
    (knex_transaction
       (try_catch
          (update_operators_where_id "auth.operators" true (t_fk_operator record) u ;;
           delete_from_tokens "auth.tokens" true (t_token record) ;;
           trx_commit)
          trx_rollback)) w
  = (Resolved tt,
     transacted [Commit; Delete "auth.tokens"; Update "auth.operators"; Begin]
       (Tables (map (fun r => if o_id r =? t_fk_operator record
                              then apply_update u r else r)
                    (operators (committed w)))
               (delete_tokens (t_token record) (tokens (committed w)))) w).
Proof.
  intros Hf Hc. destruct w as [cat [ops tks] oseq tseq trx st fl lg ss].
  simpl in *. subst. destruct u as [[h|] [n|]]; reflexivity.
Qed.

Lemma key_unused {A : Type} (key : A -> Z) (n : Z) (rows : list A) :
  Forall (fun r => key r < n) rows ->
  existsb (fun r => key r =? n) rows = false.
Proof.
  induction 1 as [|r rows Hr _ IH]; simpl; auto.
  rewrite IH. replace (key r =? n) with false by (symmetry; apply Z.eqb_neq; lia).
  reflexivity.
Qed.

Lemma setInviteToken_quiet currentTime email token w :
  healthy w ->
  setInviteToken currentTime email token w
  = (Resolved (Receipt true "Till next time."),
     World initial_catalog
       (Tables (operators (committed w)
                ++ [OperatorRow (operators_id_seq w) email None "New Operator"])
               (tokens (committed w)
                ++ [TokenRow (tokens_id_seq w) (operators_id_seq w) token currentTime]))
       (operators_id_seq w + 1) (tokens_id_seq w + 1) None (Some None) []
       (Commit :: Insert "auth.tokens" :: Insert "auth.operators" :: Begin :: log w)
       (sessions w)).
Proof.
  intros [Hf Hc Ho Ht _]. apply key_unused in Ho. apply key_unused in Ht.
  destruct w as [cat [ops tks] oseq tseq trx st fl lg ss].
  simpl in *. subst.
  run_io. simpl. rewrite Ho. simpl. rewrite Ht. reflexivity.
Qed.

Lemma setResetToken_quiet currentTime operator token w :
  healthy w ->
  setResetToken currentTime operator token w
  = (Resolved tt,
     World initial_catalog
       (Tables (operators (committed w))
               (tokens (committed w)
                ++ [TokenRow (tokens_id_seq w) operator token currentTime]))
       (operators_id_seq w) (tokens_id_seq w + 1) (transaction w) (settled w) []
       (Insert "tokens" :: log w) (sessions w)).
Proof.
  intros [Hf Hc Ho Ht _]. apply key_unused in Ht.
  destruct w as [cat [ops tks] oseq tseq trx st fl lg ss].
  simpl in *. subst.
  run_io. simpl. rewrite Ht. reflexivity.
Qed.

Lemma find_existsb {A : Type} (p : A -> bool) (rows : list A) :
  existsb p rows = match List.find p rows with Some _ => true | None => false end.
Proof.
  induction rows as [|r rows IH]; simpl; auto.
  destruct (p r); auto.
Qed.

(** ** Runs in which no step fails *)





End StorageFacts.

(* ===================================================================== *)
(** * Properties of the controllers *)
(* ===================================================================== *)

Section GatewayFacts.

Variable validateEmail : string -> bool.
Variable bcrypt_hash : string -> string.
Variable bcrypt_check : string -> string -> bool.
Variable jwt_sign : option Z -> Z -> string.
Variable root : string.

Import DatabaseService MailService StorageFacts.

(** ** Credential verification *)

Lemma localStrategy_without_hash (email pw : string) (w : world) :
  (forall operator,
      List.find (fun r => String.eqb (o_email r) email) (operators (committed w))
      = Some operator ->
      o_password operator = None) ->
  exists error info,
    localStrategy bcrypt_check email pw w
    = (Resolved (Done error None info),
       set_wire (tl (faults w)) (Select "auth.operators" :: log w) w).
Proof.
  intros Hnull.
  unfold localStrategy, select_first, try_catch, bind, on_tables.
  rewrite round_trip_run.
  destruct (next_fault_cases w) as [E | [e E]]; rewrite E; simpl.
  - destruct (List.find _ (operators (committed w))) as [operator|] eqn:F.
    + rewrite (Hnull operator eq_refl). simpl. eauto.
    + simpl. eauto.
  - eauto.
Qed.

(** C2. When the operator record found for the e-mail address has no
    password hash, verification with any password is an authentication
    failure: the strategy calls [done] without a user, and [login] answers
    400 "You shall not pass!" -- it settles, raises nothing and opens no
    session. *)
Theorem login_without_hash_fails (now : Z) (sid email pw : string) (w : world) :
  (forall operator,
      List.find (fun r => String.eqb (o_email r) email) (operators (committed w))
      = Some operator ->
      o_password operator = None) ->
  (exists error info w',
      localStrategy bcrypt_check email pw w = (Resolved (Done error None info), w'))
  /\ (exists w',
      login bcrypt_check jwt_sign now sid email pw w = (Resolved you_shall_not_pass, w')
      /\ sessions w' = sessions w
      /\ committed w' = committed w).
Proof.
  intros Hnull.
  destruct (localStrategy_without_hash email pw w Hnull) as (error & info & Hrun).
  split; [eauto |].
  unfold login, passport_authenticate.
  destruct (String.eqb email "" || String.eqb pw "").
  - exists w. unfold bind, ret. simpl. auto.
  - unfold bind at 1. unfold bind at 1. rewrite Hrun.
    exists (set_wire (tl (faults w)) (Select "auth.operators" :: log w) w).
    destruct error; unfold ret; simpl; auto.
Qed.

(** ** Logout *)

Lemma req_user_after_logout (cookie : option string) (w : world) :
  req_user cookie (snd (logout cookie w)) = None.
Proof.
  destruct cookie as [sid|]; simpl; auto.
  rewrite lookup_delete_eq. reflexivity.
Qed.

(** C6, as the code has it. The [logout] controller answers with the same
    success response every time it runs, on any session state; but the
    route [/logout] is guarded by [isAuthenticated]: with an authenticated
    session the first request is answered with that success response and
    the session is destroyed, and the request that follows it is answered
    403 "Unauthenticated. Please log in first". *)
Theorem logout_twice (cookie : option string) (w : world) :
  let first := GET_logout cookie w in
  let second := GET_logout cookie (snd first) in
  fst (logout cookie w) = Resolved logged_out
  /\ fst (logout cookie (snd (logout cookie w))) = Resolved logged_out
  /\ fst first = Resolved (if bool_decide (is_Some (req_user cookie w))
                          then logged_out else unauthenticated)
  /\ req_user cookie (snd first) = None
  /\ fst second = Resolved unauthenticated.
Proof.
  cbv zeta. split; [reflexivity | split; [reflexivity |]].
  unfold GET_logout, isAuthenticated.
  destruct (bool_decide (is_Some (req_user cookie w))) eqn:E.
  - split; [reflexivity |].
    rewrite req_user_after_logout. split; reflexivity.
  - split; [reflexivity |]. simpl.
    assert (Hnone : req_user cookie w = None).
    { destruct (req_user cookie w); [discriminate E | reflexivity]. }
    rewrite Hnone. split; reflexivity.
Qed.

(** ** Mail *)

(** What [forgot] answers once the token is inserted, for every way the
    mail service can respond. *)
Lemma forgot_after_insert (now : Z) (token mailRecipient : string)
    (operator : operator_row) (transport : outcome response) (w w1 w2 : world) :
  validateEmail mailRecipient = true ->
  getOperatorByEmail mailRecipient w = (Resolved (Some operator), w1) ->
  setResetToken now (o_id operator) token w1 = (Resolved tt, w2) ->
  forgot validateEmail root now token transport mailRecipient w
  = (match transport with
     | Resolved response =>
         match json_body response with
         | Resolved responseData =>
             if ok response then Resolved mail_on_its_way
             else match responseData with
                  | ResponseData error =>
                      Resolved (Reply (status response) None false error NoData)
                  | JsonNull => Resolved null_body
                  end
         | Rejected error => Resolved (res_json 500 false (message error))
         | Pending => Pending
         end
     | Rejected error => Resolved (res_json 500 false (message error))
     | Pending => Pending
     end, w2).
Proof.
  intros Hvalid Hget Hset.
  unfold forgot, responding, try_catch, bind. rewrite Hvalid. simpl.
  rewrite Hget, Hset. unfold sendMail, response_json, try_catch.
  destruct transport as [[status [[|responseData] | error |]] | error |]; simpl;
    try destruct (ok _); reflexivity.
Qed.

(** C7, as the code has it. [forgot] and [invite] treat the mail service
    differently. Once the reset token is inserted, [forgot] parses the body
    of the response before it looks at the status. When the body is not
    JSON the answer is 500 with the message of the parser, whatever the
    status. When it is JSON, a success is answered with the success of
    [forgot], and a response that is not a success with the status of that
    response and the [error] property of the body, [success: false] --
    except for the body [null], where reading the property throws and the
    answer is 500 with the message of that error. When the send itself
    throws the answer is 500 with its message. Once the invitation is
    committed, [invite] answers with its success on every response,
    whatever its status and body, and reports an error only if the send
    itself throws. *)
Theorem mail_failure_asymmetry (now : Z) (token mailRecipient invitee : string)
    (operator : operator_row) (receipt : receipt) (response : response)
    (w w1 w2 w1' w2' : world) :
  validateEmail mailRecipient = true ->
  getOperatorByEmail mailRecipient w = (Resolved (Some operator), w1) ->
  setResetToken now (o_id operator) token w1 = (Resolved tt, w2) ->
  validateEmail invitee = true ->
  getOperatorByEmail invitee w = (Resolved None, w1') ->
  setInviteToken now invitee token w1' = (Resolved receipt, w2') ->
  forgot validateEmail root now token (Resolved response) mailRecipient w
  = (match json_body response with
     | Resolved responseData =>
         if ok response then Resolved mail_on_its_way
         else match responseData with
              | ResponseData error =>
                  Resolved (Reply (status response) None false error NoData)
              | JsonNull => Resolved null_body
              end
     | Rejected error => Resolved (res_json 500 false (message error))
     | Pending => Pending
     end, w2)
  /\ (forall error,
         forgot validateEmail root now token (Rejected error) mailRecipient w
         = (Resolved (res_json 500 false (message error)), w2))
  /\ invite validateEmail root now token (Resolved response) invitee w
     = (Resolved invitation_extended, w2')
  /\ (forall error,
         invite validateEmail root now token (Rejected error) invitee w
         = (Resolved (res_json 500 false (message error)), w2')).
Proof.
  intros Hvalid Hget Hset Hvalid' Hget' Hset'.
  split; [| split; [| split]].
  - exact (forgot_after_insert now token mailRecipient operator (Resolved response)
             w w1 w2 Hvalid Hget Hset).
  - intros error.
    exact (forgot_after_insert now token mailRecipient operator (Rejected error)
             w w1 w2 Hvalid Hget Hset).
  - unfold invite, responding, try_catch, bind. rewrite Hvalid'. simpl.
    rewrite Hget', Hset'. reflexivity.
  - intros error.
    unfold invite, responding, try_catch, bind. rewrite Hvalid'. simpl.
    rewrite Hget', Hset'. reflexivity.
Qed.

(** ** Password reset *)

Lemma lookup_within_the_hour (now : Z) (token : string) (rows : list token_row) :
  (exists r, In r rows /\ within_the_hour now token r)
  <-> List.find (fun r => String.eqb (t_token r) token && (now - HOUR <? t_created_at r)) rows
      <> None.
Proof.
  unfold within_the_hour. split.
  - intros [r [Hin [Htok Hage]]] Hnone.
    pose proof (find_none _ _ Hnone r Hin) as Hr. simpl in Hr.
    apply andb_false_iff in Hr. destruct Hr as [Hr | Hr].
    + apply String.eqb_neq in Hr. congruence.
    + apply Z.ltb_ge in Hr. lia.
  - destruct (List.find _ rows) as [r|] eqn:F; [intros _ | congruence].
    apply find_some in F. destruct F as [Hin Hr].
    apply andb_true_iff in Hr. destruct Hr as [Htok Hage].
    apply String.eqb_eq in Htok. apply Z.ltb_lt in Hage.
    exists r. repeat split; auto. lia.
Qed.

Lemma password_quiet (now : Z) (token pw : string) (w : world) :
  faults w = [] -> catalog_of w = initial_catalog ->
  Validation.validatePassword pw = true ->
  password bcrypt_hash now token pw w
  = match List.find (fun r => String.eqb (t_token r) token
                              && (now - HOUR <? t_created_at r))
            (tokens (committed w)) with
    | Some record =>
        (Resolved password_updated,
         transacted [Commit; Delete "auth.tokens"; Update "auth.operators"; Begin]
           (Tables (map (fun r => if o_id r =? t_fk_operator record
                                  then apply_update
                                         (OperatorUpdate (Some (bcrypt_hash pw)) None) r
                                  else r)
                        (operators (committed w)))
                   (delete_tokens (t_token record) (tokens (committed w))))
           (answered (Select "auth.tokens") w))
    | None => (Resolved token_refused, answered (Select "auth.tokens") w)
    end.
Proof.
  intros Hf Hc Hv.
  unfold password, responding. rewrite Hv. simpl.
  unfold try_catch, bind. rewrite getResetTokenRecord_quiet by assumption.
  destruct (List.find _ (tokens (committed w))) as [record|]; [| reflexivity].
  unfold updatePassword. rewrite update_then_delete_quiet by (simpl; auto).
  reflexivity.
Qed.

(** C3, as the code has it. With a valid new password and a driver that
    meets no fault, the reset succeeds exactly when a token row with the
    given value is less than one hour old ([now - createdAt < 1 hour]); a
    token that is exactly one hour old is refused. Otherwise the answer is
    the one refusal "This token isn't valid. Tokens time out after an
    hour.", the same for a token that is too old and for a value that is
    not stored. *)
Theorem reset_within_the_hour (now : Z) (token pw : string) (w : world) :
  faults w = [] -> catalog_of w = initial_catalog ->
  Validation.validatePassword pw = true ->
  (fst (password bcrypt_hash now token pw w) = Resolved password_updated
   <-> exists r, In r (tokens (committed w)) /\ within_the_hour now token r)
  /\ (fst (password bcrypt_hash now token pw w) = Resolved token_refused
      <-> ~ exists r, In r (tokens (committed w)) /\ within_the_hour now token r).
Proof.
  intros Hf Hc Hv.
  rewrite (password_quiet now token pw w Hf Hc Hv).
  rewrite (lookup_within_the_hour now token (tokens (committed w))).
  destruct (List.find _ (tokens (committed w))) as [record|]; simpl.
  - split; split; intros H.
    + discriminate.
    + reflexivity.
    + vm_compute in H. discriminate H.
    + exfalso. apply H. discriminate.
  - split; split; intros H.
    + vm_compute in H. discriminate H.
    + congruence.
    + congruence.
    + reflexivity.
Qed.

(** ** Initialisation *)

Lemma set_wire_same (w : world) :
  faults w = [] -> set_wire [] (log w) w = w.
Proof. destruct w; simpl; intros ->; reflexivity. Qed.

(** C9. On a driver that meets no fault, [init] answers with the error of
    the first check that fails in the order: name (shape, then
    availability), password shape, invitation token; the round trips it
    made are those of the checks up to that one, so no later check was
    evaluated and nothing was written. When no check fails the operator is
    initialised. *)
Theorem init_checks_in_order (token pw name : string) (w : world) :
  faults w = [] -> catalog_of w = initial_catalog ->
  match run_checks (init_check_error (committed w) token pw name) init_order with
  | (Some m, evaluated) =>
      init bcrypt_hash token pw name w
      = (Resolved (res_json 500 false m),
         set_wire [] (rev (flat_map (init_check_queries name) evaluated) ++ log w) w)
  | (None, _) =>
      fst (init bcrypt_hash token pw name w) = Resolved operator_initialized
  end.
Proof.
  intros Hf Hc.
  unfold init, responding, init_order, run_checks, init_check_error, init_check_queries.
  rewrite !find_existsb.
  destruct (Validation.validateOperator name) eqn:Hname; simpl.
  2: { unfold try_catch, throw. simpl. rewrite set_wire_same by assumption. reflexivity. }
  unfold try_catch, bind. rewrite getOperatorByName_quiet by assumption.
  destruct (List.find _ (operators (committed w))) as [taken|]; simpl.
  { reflexivity. }
  destruct (Validation.validatePassword pw) eqn:Hpw; simpl.
  2: { reflexivity. }
  destruct (List.find _ (tokens (committed w))) as [record|]; simpl.
  2: { unfold throw, ret. simpl. destruct w. reflexivity. }
  unfold initOperator. rewrite update_then_delete_quiet by (simpl; auto).
  reflexivity.
Qed.

(** ** Tokens of the two flows *)

Lemma find_app_skip {A : Type} (p : A -> bool) (l l' : list A) :
  (forall y, In y l -> p y = false) ->
  List.find p (l ++ l') = List.find p l'.
Proof.
  induction l as [|x l IH]; simpl; intros H; auto.
  rewrite (H x) by auto. apply IH. intros y Hy. apply H. auto.
Qed.

Lemma filter_nothing {A : Type} (p : A -> bool) (l : list A) :
  (forall y, In y l -> p y = true) -> List.filter (fun y => negb (p y)) l = [].
Proof.
  induction l as [|x l IH]; simpl; intros H; auto.
  rewrite (H x) by auto. simpl. apply IH. intros y Hy. apply H. auto.
Qed.

Lemma filter_everything {A : Type} (p : A -> bool) (l : list A) :
  (forall y, In y l -> p y = false) -> List.filter (fun y => negb (p y)) l = l.
Proof.
  induction l as [|x l IH]; simpl; intros H; auto.
  rewrite (H x) by auto. simpl. f_equal. apply IH. intros y Hy. apply H. auto.
Qed.

Lemma map_untouched {A : Type} (hit : A -> bool) (f : A -> A) (l : list A) :
  (forall y, In y l -> hit y = false) ->
  map (fun y => if hit y then f y else y) l = l.
Proof.
  induction l as [|x l IH]; simpl; intros H; auto.
  rewrite (H x) by auto. f_equal. apply IH. intros y Hy. apply H. auto.
Qed.

Lemma find_by_key (ops : list operator_row) (op : operator_row) :
  NoDup (map o_id ops) -> In op ops ->
  List.find (fun o => o_id op =? o_id o) ops = Some op.
Proof.
  induction ops as [|x ops IH]; simpl; intros Hnd Hin; [contradiction |].
  inversion Hnd as [|? ? Hx Hnd']; subst.
  destruct Hin as [-> | Hin].
  - rewrite Z.eqb_refl. reflexivity.
  - destruct (o_id op =? o_id x) eqn:E.
    + apply Z.eqb_eq in E. exfalso. apply Hx. rewrite <- E.
      apply list_elem_of_In. apply in_map. exact Hin.
    + apply IH; assumption.
Qed.

Lemma find_first_filtered {A : Type} (p : A -> bool) (l : list A) :
  List.find p l = hd_error (List.filter p l).
Proof.
  induction l as [|x l IH]; simpl; auto.
  destruct (p x); simpl; auto.
Qed.

Lemma join_left_rows (t : tables) (r : token_row * operator_row) :
  In r (join_tokens_operators t) -> In (fst r) (tokens t).
Proof.
  unfold join_tokens_operators. rewrite in_flat_map.
  intros [tk [Htk Hr]]. apply in_map_iff in Hr. destruct Hr as [o [<- _]]. exact Htk.
Qed.

Lemma healthy_answered (q : query) (w : world) : healthy w -> healthy (answered q w).
Proof. intros [Hf Hc Ho Ht Hk]. constructor; simpl; auto. Qed.

(** The world an invitation leaves, whatever the mail service does. *)
Lemma invite_quiet (t0 : Z) (token email : string) (transport : outcome response)
    (w : world) :
  healthy w ->
  validateEmail email = true ->
  List.find (fun r => String.eqb (o_email r) email) (operators (committed w)) = None ->
  snd (invite validateEmail root t0 token transport email w)
  = World initial_catalog
      (Tables (operators (committed w)
               ++ [OperatorRow (operators_id_seq w) email None "New Operator"])
              (tokens (committed w)
               ++ [TokenRow (tokens_id_seq w) (operators_id_seq w) token t0]))
      (operators_id_seq w + 1) (tokens_id_seq w + 1) None (Some None) []
      (Commit :: Insert "auth.tokens" :: Insert "auth.operators" :: Begin
       :: Select "operators" :: log w)
      (sessions w).
Proof.
  intros Hw Hvalid Hfind.
  unfold invite, responding. rewrite Hvalid. simpl.
  unfold try_catch, bind.
  rewrite getOperatorByEmail_quiet by apply Hw. rewrite Hfind.
  rewrite setInviteToken_quiet by (apply healthy_answered; exact Hw).
  destruct transport as [response | error |]; reflexivity.
Qed.

(** The world a reset request leaves, whatever the mail service does. *)
Lemma forgot_quiet (t0 : Z) (token : string) (operator : operator_row)
    (transport : outcome response) (w : world) :
  healthy w ->
  validateEmail (o_email operator) = true ->
  List.find (fun r => String.eqb (o_email r) (o_email operator)) (operators (committed w))
  = Some operator ->
  snd (forgot validateEmail root t0 token transport (o_email operator) w)
  = World initial_catalog
      (Tables (operators (committed w))
              (tokens (committed w)
               ++ [TokenRow (tokens_id_seq w) (o_id operator) token t0]))
      (operators_id_seq w) (tokens_id_seq w + 1) (transaction w) (settled w) []
      (Insert "tokens" :: Select "operators" :: log w)
      (sessions w).
Proof.
  intros Hw Hvalid Hfind.
  unfold forgot, responding. rewrite Hvalid. simpl.
  unfold try_catch, bind.
  rewrite getOperatorByEmail_quiet by apply Hw. rewrite Hfind.
  rewrite setResetToken_quiet by (apply healthy_answered; exact Hw).
  destruct transport as [[status [[|body] | error |]] | error |];
    simpl; try destruct (ok _); reflexivity.
Qed.

(** C10. A token row records no kind. A token the invite flow created less
    than an hour ago is accepted by the password reset: the answer is the
    success of a reset, the invited operator, who had no password, gets the
    new hash, and the token is deleted. Conversely a token created by a
    reset request is accepted by [welcome], at any time, and the answer
    carries the e-mail address of its operator. *)
Theorem tokens_carry_no_kind (t0 now : Z) (token email pw : string)
    (operator : operator_row) (transport : outcome response) (w : world) :
  healthy w ->
  validateEmail email = true ->
  validateEmail (o_email operator) = true ->
  Validation.validatePassword pw = true ->
  (forall r, In r (tokens (committed w)) -> t_token r <> token) ->
  List.find (fun r => String.eqb (o_email r) email) (operators (committed w)) = None ->
  List.find (fun r => String.eqb (o_email r) (o_email operator)) (operators (committed w))
  = Some operator ->
  now - t0 < HOUR ->
  (committed (snd (invite validateEmail root t0 token transport email w))
   = Tables (operators (committed w)
             ++ [OperatorRow (operators_id_seq w) email None "New Operator"])
            (tokens (committed w)
             ++ [TokenRow (tokens_id_seq w) (operators_id_seq w) token t0])
   /\ fst (password bcrypt_hash now token pw
             (snd (invite validateEmail root t0 token transport email w)))
      = Resolved password_updated
   /\ committed (snd (password bcrypt_hash now token pw
                        (snd (invite validateEmail root t0 token transport email w))))
      = Tables (operators (committed w)
                ++ [OperatorRow (operators_id_seq w) email (Some (bcrypt_hash pw))
                      "New Operator"])
               (tokens (committed w)))
  /\ (committed (snd (forgot validateEmail root t0 token transport (o_email operator) w))
      = Tables (operators (committed w))
               (tokens (committed w)
                ++ [TokenRow (tokens_id_seq w) (o_id operator) token t0])
      /\ fst (welcome token
                (snd (forgot validateEmail root t0 token transport (o_email operator) w)))
         = Resolved (res_json 200 true (o_email operator))).
Proof using validateEmail bcrypt_hash root.
  intros Hw Hemail Hemail' Hpw Hfresh Hnew Hold Hage.
  assert (Hskip : forall p : token_row -> bool,
             (forall r, p r = true -> t_token r = token) ->
             forall r, In r (tokens (committed w)) -> p r = false).
  { intros p Hp r Hin. destruct (p r) eqn:E; auto.
    exfalso. exact (Hfresh r Hin (Hp r E)). }
  split.
  - rewrite (invite_quiet t0 token email transport w Hw Hemail Hnew).
    split; [reflexivity |].
    rewrite password_quiet by auto. simpl.
    rewrite find_app_skip.
    2: { apply Hskip. intros r Hr. apply andb_true_iff in Hr.
         apply String.eqb_eq. exact (proj1 Hr). }
    simpl. rewrite String.eqb_refl.
    replace (now - HOUR <? t0) with true by (symmetry; apply Z.ltb_lt; lia).
    simpl. split; [reflexivity |].
    unfold delete_tokens. rewrite !List.filter_app, !List.map_app. simpl.
    rewrite String.eqb_refl, Z.eqb_refl. simpl. rewrite List.app_nil_r.
    f_equal.
    + f_equal. apply map_untouched. intros r Hin.
      apply Z.eqb_neq. destruct Hw as [_ _ Ho _ _].
      rewrite List.Forall_forall in Ho. specialize (Ho r Hin). lia.
    + apply filter_everything. apply Hskip. intros r Hr. apply String.eqb_eq. exact Hr.
  - rewrite (forgot_quiet t0 token operator transport w Hw Hemail' Hold).
    split; [reflexivity |].
    unfold welcome, responding, try_catch, bind.
    rewrite getOperatorByToken_quiet by reflexivity. simpl.
    unfold join_tokens_operators. simpl. rewrite List.flat_map_app.
    rewrite find_app_skip.
    2: { intros r Hin. apply (Hskip (fun tk => String.eqb (t_token tk) token)).
         - intros tk Htk. apply String.eqb_eq. exact Htk.
         - apply (join_left_rows (committed w)). exact Hin. }
    simpl. rewrite List.app_nil_r.
    assert (Hfirst : hd_error (List.filter (fun o => o_id operator =? o_id o)
                                 (operators (committed w))) = Some operator).
    { rewrite <- find_first_filtered. apply find_by_key.
      - apply Hw.
      - apply find_some in Hold. exact (proj1 Hold). }
    destruct (List.filter _ (operators (committed w))) as [|o rest]; [discriminate |].
    simpl in Hfirst. injection Hfirst as ->.
    simpl. rewrite String.eqb_refl. reflexivity.
Qed.

(** ** Reset requests *)

(** C4, on the code. An operator has a reset token created less than an
    hour ago and asks again. In the database [init_tables.js] creates, on a
    driver that meets no fault and with a mail service that accepts the
    mail, the second request is not refused with the rate-limit signal: it
    is answered with the success of [forgot], and the operator has one more
    token. [setResetToken] turns SQLSTATE 23505 into that signal, but no
    unique constraint on [tokens] exists to raise it. *)
Theorem second_reset_request_is_accepted (now : Z) (token : string)
    (operator : operator_row) (outstanding : token_row) (w : world) :
  healthy w ->
  validateEmail (o_email operator) = true ->
  List.find (fun r => String.eqb (o_email r) (o_email operator)) (operators (committed w))
  = Some operator ->
  In outstanding (tokens (committed w)) ->
  t_fk_operator outstanding = o_id operator ->
  now - t_created_at outstanding < HOUR ->
  fst (forgot validateEmail root now token mail_accepted (o_email operator) w)
  = Resolved mail_on_its_way
  /\ fst (forgot validateEmail root now token mail_accepted (o_email operator) w)
     <> Resolved rate_limited
  /\ tokens (committed
               (snd (forgot validateEmail root now token mail_accepted
                       (o_email operator) w)))
     = tokens (committed w) ++ [TokenRow (tokens_id_seq w) (o_id operator) token now]
  /\ In outstanding
        (tokens (committed
                   (snd (forgot validateEmail root now token mail_accepted
                           (o_email operator) w)))).
Proof using validateEmail root.
  intros Hw Hvalid Hfind Hin _ _.
  assert (Hanswer : fst (forgot validateEmail root now token mail_accepted
                           (o_email operator) w) = Resolved mail_on_its_way).
  { unfold forgot, responding. rewrite Hvalid. simpl.
    unfold try_catch, bind.
    rewrite getOperatorByEmail_quiet by apply Hw. rewrite Hfind.
    rewrite setResetToken_quiet by (apply healthy_answered; exact Hw).
    reflexivity. }
  rewrite (forgot_quiet now token operator mail_accepted w Hw Hvalid Hfind).
  rewrite Hanswer. simpl.
  split; [reflexivity | split; [| split; [reflexivity |]]].
  - intros H. vm_compute in H. discriminate H.
  - apply in_or_app. left. exact Hin.
Qed.

(** ** Uniqueness of e-mail addresses and names *)

Lemma find_present {A : Type} (p : A -> bool) (l : list A) :
  (exists r, In r l /\ p r = true) -> exists x, List.find p l = Some x.
Proof.
  intros [r [Hin Hr]]. destruct (List.find p l) as [x|] eqn:F; eauto.
  rewrite (find_none _ _ F r Hin) in Hr. discriminate Hr.
Qed.

Lemma updateOperator_quiet (name : string) (id : Z) (w : world) :
  faults w = [] -> catalog_of w = initial_catalog ->
  fst (updateOperator name id w) = Resolved id.
Proof.
  intros Hf Hc. destruct w as [cat [ops tks] oseq tseq trx st fl lg ss].
  simpl in *. subst. reflexivity.
Qed.

Lemma healthy_after_invite (t0 : Z) (token email : string)
    (transport : outcome response) (w : world) :
  healthy w ->
  validateEmail email = true ->
  List.find (fun r => String.eqb (o_email r) email) (operators (committed w)) = None ->
  healthy (snd (invite validateEmail root t0 token transport email w)).
Proof.
  intros Hw Hvalid Hfind. rewrite (invite_quiet t0 token email transport w Hw Hvalid Hfind).
  destruct Hw as [Hf Hc Ho Ht Hk]. constructor; simpl; auto.
  - apply List.Forall_app. split.
    + eapply List.Forall_impl; [| exact Ho]. simpl. intros r Hr. lia.
    + repeat constructor. simpl. lia.
  - apply List.Forall_app. split.
    + eapply List.Forall_impl; [| exact Ht]. simpl. intros r Hr. lia.
    + repeat constructor. simpl. lia.
  - rewrite List.map_app. simpl. apply NoDup_app. split; [exact Hk |]. split.
    + intros x Hx Hin. apply list_elem_of_In in Hx. apply list_elem_of_In in Hin.
      destruct Hin as [<- | []]. apply in_map_iff in Hx. destruct Hx as [r [Hr Hin]].
      rewrite List.Forall_forall in Ho. specialize (Ho r Hin). lia.
    + apply NoDup_singleton.
Qed.

(** C5, as the code has it. Duplicates are refused, in sequential use, by
    the reads the handlers make before they write, not by the storage
    layer. In a database as [initDataTables] creates it and without a fault
    of the driver: for an address that is stored, [invite] answers "This
    operator has already joined." after the one lookup -- "That's not a
    valid email!" before it when the validation refuses the address -- and
    writes nothing; for a name that is stored, [operator] and [init] answer
    "This name is taken." after the one lookup -- "That's not a valid name."
    before it when the name has not 5 to 20 characters -- and [probe]
    answers "This name is taken."; none of them writes. The storage layer
    enforces neither: the tables [createTable] declares have no unique
    constraint on [email] or [operator]; the insert of a stored address
    succeeds and adds a second row with that address, and the update to a
    stored name succeeds and sets it. Names are not unique through the
    handlers either: [invite] gives every new operator the name "New
    Operator", and two invitations leave two rows with that name. *)
Theorem uniqueness_is_checked_before_the_write (now : Z) (token email pw name : string)
    (user_id : Z) (transport : outcome response) (w : world) :
  healthy w ->
  (exists r, In r (operators (committed w)) /\ o_email r = email) ->
  (exists r, In r (operators (committed w)) /\ o_operator r = name) ->
  invite validateEmail root now token transport email w
  = (if validateEmail email
     then (Resolved already_joined, answered (Select "operators") w)
     else (Resolved not_a_valid_address, w))
  /\ operator user_id name w
     = (if Validation.validateOperator name
        then (Resolved name_taken, answered (Select "operators") w)
        else (Resolved not_a_valid_name, w))
  /\ probe name w = (Resolved name_taken, answered (Select "operators") w)
  /\ init bcrypt_hash token pw name w
     = (if Validation.validateOperator name
        then (Resolved name_taken, answered (Select "operators") w)
        else (Resolved not_a_valid_name, w))
  /\ enforces_unique (operators_def (catalog_of w)) "email" = false
  /\ enforces_unique (operators_def (catalog_of w)) "operator" = false
  /\ fst (setInviteToken now email token w) = Resolved (Receipt true "Till next time.")
  /\ operators (committed (snd (setInviteToken now email token w)))
     = operators (committed w)
       ++ [OperatorRow (operators_id_seq w) email None "New Operator"]
  /\ fst (updateOperator name user_id w) = Resolved user_id
  /\ operators (committed (snd (updateOperator name user_id w)))
     = map (fun r => if o_id r =? user_id
                     then OperatorRow (o_id r) (o_email r) (o_password r) name
                     else r)
           (operators (committed w))
  /\ (forall first second token',
         validateEmail first = true -> validateEmail second = true ->
         first <> second ->
         (forall r, In r (operators (committed w)) -> o_email r <> first) ->
         (forall r, In r (operators (committed w)) -> o_email r <> second) ->
         operators
           (committed
              (snd (invite validateEmail root now token' transport second
                      (snd (invite validateEmail root now token transport first w)))))
         = operators (committed w)
           ++ [OperatorRow (operators_id_seq w) first None "New Operator";
               OperatorRow (operators_id_seq w + 1) second None "New Operator"]).
Proof using validateEmail bcrypt_hash root.
  intros Hw Hstored Hused.
  assert (Hf : faults w = []) by apply Hw.
  assert (Hc : catalog_of w = initial_catalog) by apply Hw.
  destruct (find_present (fun r => String.eqb (o_email r) email) (operators (committed w)))
    as [r1 F1].
  { destruct Hstored as [r [Hin Hr]]. exists r. split; auto. apply String.eqb_eq. exact Hr. }
  destruct (find_present (fun r => String.eqb (o_operator r) name) (operators (committed w)))
    as [r2 F2].
  { destruct Hused as [r [Hin Hr]]. exists r. split; auto. apply String.eqb_eq. exact Hr. }
  split; [| split; [| split; [| split; [| split; [| split; [| split; [| split;
    [| split; [| split]]]]]]]]].
  - unfold invite, responding. destruct (validateEmail email); simpl; [| reflexivity].
    unfold try_catch, bind.
    rewrite getOperatorByEmail_quiet by assumption. rewrite F1. reflexivity.
  - unfold operator, responding.
    destruct (Validation.validateOperator name); simpl; [| reflexivity].
    unfold try_catch, bind.
    rewrite getOperatorByName_quiet by assumption. rewrite F2. reflexivity.
  - unfold probe, responding, try_catch, bind.
    rewrite getOperatorByName_quiet by assumption. rewrite F2. reflexivity.
  - unfold init, responding.
    destruct (Validation.validateOperator name); simpl; [| reflexivity].
    unfold try_catch, bind.
    rewrite getOperatorByName_quiet by assumption. rewrite F2. reflexivity.
  - rewrite Hc. reflexivity.
  - rewrite Hc. reflexivity.
  - rewrite setInviteToken_quiet by assumption. reflexivity.
  - rewrite setInviteToken_quiet by assumption. reflexivity.
  - apply updateOperator_quiet; assumption.
  - destruct w as [cat [ops tks] oseq tseq trx st fl lg ss]. simpl in *. subst.
    reflexivity.
  - intros first second token' Hfirst Hsecond Hdiff Hnew Hnew'.
    assert (Hnone : List.find (fun r => String.eqb (o_email r) first)
                      (operators (committed w)) = None).
    { destruct (List.find (fun r => String.eqb (o_email r) first)
                  (operators (committed w))) as [r|] eqn:F; [| reflexivity].
      apply find_some in F. destruct F as [Hin Hr]. apply String.eqb_eq in Hr.
      exfalso. exact (Hnew r Hin Hr). }
    pose proof (healthy_after_invite now token first transport w Hw Hfirst Hnone) as Hw1.
    rewrite invite_quiet; [| exact Hw1 | exact Hsecond |].
    + rewrite (invite_quiet now token first transport w Hw Hfirst Hnone). simpl.
      rewrite <- List.app_assoc. reflexivity.
    + rewrite (invite_quiet now token first transport w Hw Hfirst Hnone). simpl.
      rewrite find_app_skip.
      * simpl. replace (String.eqb first second) with false; [reflexivity |].
        symmetry. apply String.eqb_neq. exact Hdiff.
      * intros r Hr. apply String.eqb_neq. apply Hnew'. exact Hr.
Qed.

End GatewayFacts.

(* ===================================================================== *)
(** * Concrete runs *)
(* ===================================================================== *)

Module Runs.
Import DatabaseService MailService.

Lemma healthy_genesis : healthy genesis.
Proof.
  constructor.
  - vm_compute. reflexivity.
  - vm_compute. reflexivity.
  - vm_compute. repeat constructor.
  - vm_compute. constructor.
  - apply (bool_decide_unpack _). vm_compute. exact I.
Defined.

Lemma healthy_invited_world : healthy invited_world.
Proof.
  constructor.
  - vm_compute. reflexivity.
  - vm_compute. reflexivity.
  - vm_compute. repeat constructor.
  - vm_compute. repeat constructor.
  - apply (bool_decide_unpack _). vm_compute. exact I.
Defined.

(** The round trip of the specification: invite, welcome, initialise, log in. *)
Example invite_welcome_init_login :
  fst (welcome "a1b2" invited_world) = Resolved (res_json 200 true "carol@example.com")
  /\ fst (init sample_hash "a1b2" "Abcdef1!" "Carol" invited_world)
     = Resolved operator_initialized
  /\ fst (init sample_hash "a1b2" "Abcdef1!" "Carla" initialized_world)
     = Resolved (res_json 500 false "This invitation is invalid.")
  /\ req_user (Some "c0ffee") logged_in
     = Some (OperatorRow 1 "carol@example.com" (Some (sample_hash "Abcdef1!")) "Carol").
Proof. vm_compute. repeat split; reflexivity. Qed.

(** A failure in the middle of a transaction: the insert of the token fails,
    the transaction is rolled back, the tables are as before; the sequence
    value drawn for the operator is not given back. *)
Example invite_rolled_back :
  fst (setInviteToken 1000 "carol@example.com" "a1b2"
         (set_wire [None; None; Some (JsError (Some "08006") "connection failure")] []
            genesis))
  = Rejected (new_Error "connection failure")
  /\ committed (snd (setInviteToken 1000 "carol@example.com" "a1b2"
                       (set_wire [None; None;
                                  Some (JsError (Some "08006") "connection failure")] []
                          genesis)))
     = committed genesis
  /\ log (snd (setInviteToken 1000 "carol@example.com" "a1b2"
                 (set_wire [None; None;
                            Some (JsError (Some "08006") "connection failure")] []
                    genesis)))
     = [Rollback; Insert "auth.tokens"; Insert "auth.operators"; Begin]
  /\ operators_id_seq (snd (setInviteToken 1000 "carol@example.com" "a1b2"
                              (set_wire [None; None;
                                         Some (JsError (Some "08006")
                                                 "connection failure")] []
                                 genesis)))
     = 2.
Proof. vm_compute. repeat split; reflexivity. Qed.

(** ** C1 *)


(** ** C2 *)

(** Carol is invited and has no password yet. *)
Lemma login_without_hash_fails_witness :
  (forall operator,
      List.find (fun r => String.eqb (o_email r) "carol@example.com")
        (operators (committed invited_world)) = Some operator ->
      o_password operator = None)
  /\ exists w',
      login sample_check sample_sign 2000 "c0ffee" "carol@example.com" "Abcdef1!"
        invited_world
      = (Resolved you_shall_not_pass, w')
      /\ sessions w' = sessions invited_world
      /\ committed w' = committed invited_world.
Proof.
  assert (H : forall operator,
             List.find (fun r => String.eqb (o_email r) "carol@example.com")
               (operators (committed invited_world)) = Some operator ->
             o_password operator = None).
  { intros operator Hfound. vm_compute in Hfound. injection Hfound as <-. reflexivity. }
  split; [exact H |].
  exact (proj2 (login_without_hash_fails sample_check sample_sign 2000 "c0ffee"
                  "carol@example.com" "Abcdef1!" invited_world H)).
Defined.

(** ** C3 *)

(** A token that is exactly one hour old satisfies [now - createdAt <= 1
    hour], and the reset is refused. *)
Lemma reset_refused_at_exactly_one_hour :
  tokens (committed reset_requested) = [TokenRow 1 0 "5f1d" 1000]
  /\ (1000 + HOUR) - 1000 <= HOUR
  /\ fst (password sample_hash (1000 + HOUR) "5f1d" "Abcdef1!" reset_requested)
     = Resolved token_refused.
Proof. vm_compute. repeat split; try reflexivity. discriminate. Qed.

(** One millisecond before the hour is over the token is still accepted. *)
Lemma reset_within_the_hour_witness :
  faults reset_requested = []
  /\ catalog_of reset_requested = initial_catalog
  /\ Validation.validatePassword "Abcdef1!" = true
  /\ (fst (password sample_hash (999 + HOUR) "5f1d" "Abcdef1!" reset_requested)
      = Resolved password_updated
      <-> exists r, In r (tokens (committed reset_requested))
                    /\ within_the_hour (999 + HOUR) "5f1d" r).
Proof.
  split; [vm_compute; reflexivity
         | split; [vm_compute; reflexivity | split; [vm_compute; reflexivity |]]].
  assert (H1 : faults reset_requested = []) by (vm_compute; reflexivity).
  assert (H2 : catalog_of reset_requested = initial_catalog) by (vm_compute; reflexivity).
  assert (H3 : Validation.validatePassword "Abcdef1!" = true) by (vm_compute; reflexivity).
  exact (proj1 (reset_within_the_hour sample_hash (999 + HOUR) "5f1d" "Abcdef1!"
                  reset_requested H1 H2 H3)).
Defined.

(** ** C4 *)

(** The genesis operator has a reset token created at time 1000 and asks
    again one minute later. *)
Lemma second_reset_request_is_accepted_witness :
  tokens (committed reset_requested) = [TokenRow 1 0 "5f1d" 1000]
  /\ fst (forgot sample_validateEmail sample_root 61000 "9c3e" mail_accepted
            "genesis@apebase.app" reset_requested)
     = Resolved mail_on_its_way
  /\ tokens (committed
               (snd (forgot sample_validateEmail sample_root 61000 "9c3e" mail_accepted
                       "genesis@apebase.app" reset_requested)))
     = tokens (committed reset_requested) ++ [TokenRow 2 0 "9c3e" 61000].
Proof.
  assert (H0 : tokens (committed reset_requested) = [TokenRow 1 0 "5f1d" 1000])
    by (vm_compute; reflexivity).
  assert (H1 : healthy reset_requested).
  { constructor.
    - vm_compute. reflexivity.
    - vm_compute. reflexivity.
    - vm_compute. repeat constructor.
    - vm_compute. repeat constructor.
    - apply (bool_decide_unpack _). vm_compute. exact I. }
  assert (H2 : sample_validateEmail "genesis@apebase.app" = true)
    by (vm_compute; reflexivity).
  assert (H3 : List.find (fun r => String.eqb (o_email r) "genesis@apebase.app")
                 (operators (committed reset_requested))
               = Some (OperatorRow 0 "genesis@apebase.app" (Some genesis_hash) "Genesis"))
    by (vm_compute; reflexivity).
  assert (H4 : In (TokenRow 1 0 "5f1d" 1000) (tokens (committed reset_requested)))
    by (rewrite H0; left; reflexivity).
  assert (H5 : 61000 - 1000 < HOUR) by (vm_compute; reflexivity).
  destruct (second_reset_request_is_accepted sample_validateEmail sample_root
              61000 "9c3e"
              (OperatorRow 0 "genesis@apebase.app" (Some genesis_hash) "Genesis")
              (TokenRow 1 0 "5f1d" 1000) reset_requested
              H1 H2 H3 H4 eq_refl H5) as (Hanswer & _ & Htokens & _).
  split; [exact H0 | split; [exact Hanswer | exact Htokens]].
Defined.

(** The run, evaluated: two reset tokens for the genesis operator. *)
Example two_reset_tokens :
  enforces_unique (tokens_def (catalog_of reset_requested)) "_fk_operator" = false
  /\ tokens (committed
               (snd (forgot sample_validateEmail sample_root 61000 "9c3e" mail_accepted
                       "genesis@apebase.app" reset_requested)))
     = [TokenRow 1 0 "5f1d" 1000; TokenRow 2 0 "9c3e" 61000].
Proof. vm_compute. split; reflexivity. Qed.

(** With a unique index on [tokens._fk_operator] the same request gets the
    rate-limit signal and no second token. *)
Lemma rate_limit_signal_with_unique_index :
  fst (forgot sample_validateEmail sample_root 61000 "9c3e" mail_accepted
         "genesis@apebase.app" reset_requested_with_unique_index)
  = Resolved rate_limited
  /\ tokens (committed
               (snd (forgot sample_validateEmail sample_root 61000 "9c3e" mail_accepted
                       "genesis@apebase.app" reset_requested_with_unique_index)))
     = [TokenRow 1 0 "5f1d" 1000].
Proof. vm_compute. split; reflexivity. Qed.

(** ** C5 *)

(** The storage layer accepts a second operator with a stored address, and
    an update to a stored display name. *)
Lemma duplicates_are_stored :
  map o_email (operators (committed invited_world))
  = ["genesis@apebase.app"; "carol@example.com"]
  /\ fst (setInviteToken 2000 "carol@example.com" "c3d4" invited_world)
     = Resolved (Receipt true "Till next time.")
  /\ map o_email
       (operators (committed (snd (setInviteToken 2000 "carol@example.com" "c3d4"
                                     invited_world))))
     = ["genesis@apebase.app"; "carol@example.com"; "carol@example.com"]
  /\ fst (updateOperator "Genesis" 1 invited_world) = Resolved 1
  /\ map o_operator
       (operators (committed (snd (updateOperator "Genesis" 1 invited_world))))
     = ["Genesis"; "Genesis"].
Proof. vm_compute. repeat split; reflexivity. Qed.

(** Through the controllers the stored address and the stored name are
    refused. *)
Lemma uniqueness_is_checked_before_the_write_witness :
  healthy invited_world
  /\ invite sample_validateEmail sample_root 2000 "c3d4" mail_accepted
       "carol@example.com" invited_world
     = (Resolved already_joined, answered (Select "operators") invited_world)
  /\ operator 1 "Genesis" invited_world
     = (Resolved name_taken, answered (Select "operators") invited_world).
Proof.
  split; [exact healthy_invited_world |].
  assert (H1 : exists r, In r (operators (committed invited_world))
                         /\ o_email r = "carol@example.com").
  { exists (OperatorRow 1 "carol@example.com" None "New Operator").
    vm_compute. split; [right; left; reflexivity | reflexivity]. }
  assert (H2 : exists r, In r (operators (committed invited_world))
                         /\ o_operator r = "Genesis").
  { exists (OperatorRow 0 "genesis@apebase.app" (Some genesis_hash) "Genesis").
    vm_compute. split; [left; reflexivity | reflexivity]. }
  destruct (uniqueness_is_checked_before_the_write sample_validateEmail sample_hash
              sample_root 2000 "c3d4" "carol@example.com" "Abcdef1!" "Genesis" 1
              mail_accepted invited_world healthy_invited_world H1 H2)
    as (Hinvite & Hoperator & _).
  assert (E1 : sample_validateEmail "carol@example.com" = true)
    by (vm_compute; reflexivity).
  assert (E2 : Validation.validateOperator "Genesis" = true)
    by (vm_compute; reflexivity).
  rewrite E1 in Hinvite. rewrite E2 in Hoperator.
  split; [exact Hinvite | exact Hoperator].
Defined.

(** ** C6 *)

(** Carol is logged in with the session [c0ffee]. The first logout is
    answered with the success response; the second, in sequence, with 403. *)
Lemma second_logout_is_refused :
  fst (GET_logout (Some "c0ffee") logged_in) = Resolved logged_out
  /\ fst (GET_logout (Some "c0ffee") (snd (GET_logout (Some "c0ffee") logged_in)))
     = Resolved unauthenticated
  /\ fst (GET_logout (Some "c0ffee") (snd (GET_logout (Some "c0ffee") logged_in)))
     <> fst (GET_logout (Some "c0ffee") logged_in).
Proof. vm_compute. repeat split; try reflexivity. discriminate. Qed.

(** ** C7 *)

(** The mail service answers 502 with a page that is not JSON: the reset
    token is inserted, and [forgot] answers 500 with the message of the
    parser, not with the status of the response. *)
Lemma unparsable_failure_is_answered_500 :
  ok (Response 502 (Rejected (new_Error "Unexpected token < in JSON at position 0")))
  = false
  /\ tokens (committed
               (snd (forgot sample_validateEmail sample_root 1000 "5f1d"
                       (Resolved
                          (Response 502
                             (Rejected
                                (new_Error "Unexpected token < in JSON at position 0"))))
                       "genesis@apebase.app" genesis)))
     = [TokenRow 1 0 "5f1d" 1000]
  /\ fst (forgot sample_validateEmail sample_root 1000 "5f1d"
            (Resolved
               (Response 502
                  (Rejected (new_Error "Unexpected token < in JSON at position 0"))))
            "genesis@apebase.app" genesis)
     = Resolved (res_json 500 false "Unexpected token < in JSON at position 0")
  /\ fst (forgot sample_validateEmail sample_root 1000 "5f1d"
            (Resolved (Response 502 (Resolved JsonNull)))
            "genesis@apebase.app" genesis)
     = Resolved null_body.
Proof. vm_compute. repeat split; reflexivity. Qed.

(** The mail service answers 502 with a JSON body to both. *)
Lemma mail_failure_asymmetry_witness :
  forgot sample_validateEmail sample_root 1000 "5f1d"
    (Resolved (Response 502 (Resolved (ResponseData (Some "mail relay unavailable")))))
    "genesis@apebase.app" genesis
  = (Resolved (Reply 502 None false (Some "mail relay unavailable") NoData),
     snd (setResetToken 1000 0 "5f1d" (answered (Select "operators") genesis)))
  /\ invite sample_validateEmail sample_root 1000 "5f1d"
       (Resolved (Response 502 (Resolved (ResponseData (Some "mail relay unavailable")))))
       "carol@example.com" genesis
     = (Resolved invitation_extended,
        snd (setInviteToken 1000 "carol@example.com" "5f1d"
               (answered (Select "operators") genesis))).
Proof.
  assert (H1 : sample_validateEmail "genesis@apebase.app" = true)
    by (vm_compute; reflexivity).
  assert (H2 : getOperatorByEmail "genesis@apebase.app" genesis
               = (Resolved (Some (OperatorRow 0 "genesis@apebase.app"
                                    (Some genesis_hash) "Genesis")),
                  answered (Select "operators") genesis))
    by (vm_compute; reflexivity).
  assert (H3 : setResetToken 1000 0 "5f1d" (answered (Select "operators") genesis)
               = (Resolved tt,
                  snd (setResetToken 1000 0 "5f1d"
                         (answered (Select "operators") genesis))))
    by (vm_compute; reflexivity).
  assert (H4 : sample_validateEmail "carol@example.com" = true)
    by (vm_compute; reflexivity).
  assert (H5 : getOperatorByEmail "carol@example.com" genesis
               = (Resolved None, answered (Select "operators") genesis))
    by (vm_compute; reflexivity).
  assert (H6 : setInviteToken 1000 "carol@example.com" "5f1d"
                 (answered (Select "operators") genesis)
               = (Resolved (Receipt true "Till next time."),
                  snd (setInviteToken 1000 "carol@example.com" "5f1d"
                         (answered (Select "operators") genesis))))
    by (vm_compute; reflexivity).
  destruct (mail_failure_asymmetry sample_validateEmail sample_root 1000 "5f1d"
              "genesis@apebase.app" "carol@example.com" _ _
              (Response 502 (Resolved (ResponseData (Some "mail relay unavailable"))))
              _ _ _ _ _ H1 H2 H3 H4 H5 H6) as (Hforgot & _ & Hinvite & _).
  split; [exact Hforgot | exact Hinvite].
Defined.

(** ** C9 *)

(** A free name, a weak password and a token that does not exist. *)
Lemma init_checks_in_order_witness :
  faults genesis = []
  /\ catalog_of genesis = initial_catalog
  /\ match run_checks (init_check_error (committed genesis) "a1b2" "weak" "Carol")
             init_order with
     | (Some m, evaluated) =>
         init sample_hash "a1b2" "weak" "Carol" genesis
         = (Resolved (res_json 500 false m),
            set_wire []
              (rev (flat_map (init_check_queries "Carol") evaluated) ++ log genesis)
              genesis)
     | (None, _) =>
         fst (init sample_hash "a1b2" "weak" "Carol" genesis)
         = Resolved operator_initialized
     end.
Proof.
  assert (H1 : faults genesis = []) by (vm_compute; reflexivity).
  assert (H2 : catalog_of genesis = initial_catalog) by (vm_compute; reflexivity).
  split; [exact H1 | split; [exact H2 |]].
  exact (init_checks_in_order sample_hash "a1b2" "weak" "Carol" genesis H1 H2).
Defined.

(** The run of the witness: the name passes, the password does not, and the
    token was never looked up. *)
Example init_stops_at_the_password :
  run_checks (init_check_error (committed genesis) "a1b2" "weak" "Carol") init_order
  = (Some "That's not a valid password.", [NameAvailability; PasswordShape])
  /\ init sample_hash "a1b2" "weak" "Carol" genesis
     = (Resolved (res_json 500 false "That's not a valid password."),
        set_wire [] (Select "operators" :: log genesis) genesis).
Proof. vm_compute. split; reflexivity. Qed.

(** ** C10 *)

(** Carol's invite token is redeemed by a reset, and a reset token of the
    genesis operator is accepted by [welcome]. *)
Lemma tokens_carry_no_kind_witness :
  healthy genesis
  /\ fst (password sample_hash 2000 "a1b2" "Abcdef1!" invited_world)
     = Resolved password_updated
  /\ fst (welcome "a1b2"
            (snd (forgot sample_validateEmail sample_root 1000 "a1b2" mail_accepted
                    "genesis@apebase.app" genesis)))
     = Resolved (res_json 200 true "genesis@apebase.app").
Proof.
  split; [exact healthy_genesis |].
  assert (Hfresh : forall r, In r (tokens (committed genesis)) -> t_token r <> "a1b2").
  { intros r Hin. vm_compute in Hin. contradiction. }
  assert (Hage : 2000 - 1000 < HOUR) by (vm_compute; reflexivity).
  assert (H1 : sample_validateEmail "carol@example.com" = true)
    by (vm_compute; reflexivity).
  assert (H2 : sample_validateEmail "genesis@apebase.app" = true)
    by (vm_compute; reflexivity).
  assert (H3 : Validation.validatePassword "Abcdef1!" = true)
    by (vm_compute; reflexivity).
  assert (H4 : List.find (fun r => String.eqb (o_email r) "carol@example.com")
                 (operators (committed genesis)) = None)
    by (vm_compute; reflexivity).
  assert (H5 : List.find (fun r => String.eqb (o_email r) "genesis@apebase.app")
                 (operators (committed genesis))
               = Some (OperatorRow 0 "genesis@apebase.app" (Some genesis_hash) "Genesis"))
    by (vm_compute; reflexivity).
  pose proof (tokens_carry_no_kind sample_validateEmail sample_hash sample_root
                1000 2000 "a1b2" "carol@example.com" "Abcdef1!"
                (OperatorRow 0 "genesis@apebase.app" (Some genesis_hash) "Genesis")
                mail_accepted genesis
                healthy_genesis H1 H2 H3 Hfresh H4 H5 Hage) as H.
  destruct H as ((_ & Hreset & _) & (_ & Hwelcome)).
  split; [exact Hreset | exact Hwelcome].
Defined.

End Runs.

(* ===================================================================== *)
(** * Further properties: validation, tables, start of the server *)
(* ===================================================================== *)

Module MoreValidationFacts.
Import Validation EmailValidation.

(** [validateOperator] looks at the length only: a name is valid exactly
    when it has between 5 and 20 characters, whatever the characters. *)
Theorem validateOperator_length (name : string) :
  validateOperator name = true <-> (5 <= String.length name <= 20)%nat.
Proof.
  unfold validateOperator. rewrite ValidationFacts.no_errors_forallb.
  unfold operator_validators. cbn [forallb].
  change (valid (atLeastFiveCharactersOperator name)) with (5 <=? String.length name)%nat.
  change (valid (atMostTwentyCharactersOperator name)) with (String.length name <=? 20)%nat.
  rewrite !andb_true_iff, !Nat.leb_le. tauto.
Qed.

Lemma startsWith_app (needle a b : string) :
  startsWith needle a = true -> startsWith needle (a ++ b) = true.
Proof.
  revert a. induction needle as [|c needle IH]; intros a H.
  - destruct a; reflexivity.
  - destruct a as [|d a]; simpl in *; [discriminate H |].
    apply andb_true_iff in H. destruct H as [Hc H].
    rewrite Hc. simpl. apply IH. exact H.
Qed.

Lemma includes_app (needle a b : string) :
  includes needle a = true -> includes needle (a ++ b) = true.
Proof.
  induction a as [|c a IH]; intros H.
  - simpl in H. rewrite orb_false_r in H.
    destruct needle; [| discriminate H]. destruct b; reflexivity.
  - cbn [includes] in H. apply orb_true_iff in H.
    change (String c a ++ b)%string with (String c (a ++ b)).
    cbn [includes]. apply orb_true_iff. destruct H as [H | H].
    + left. exact (startsWith_app needle (String c a) b H).
    + right. apply IH. exact H.
Qed.

Lemma split_not_empty (sep : ascii) (s : string) : split sep s <> [].
Proof.
  destruct s as [|c r]; simpl; [discriminate |].
  destruct (Ascii.eqb c sep); [discriminate |].
  destruct (split sep r); discriminate.
Qed.

Lemma split_app (sep : ascii) (a b : string) :
  split sep (a ++ String sep b) = split sep a ++ split sep b.
Proof.
  induction a as [|c a IH]; simpl.
  - rewrite Ascii.eqb_refl. reflexivity.
  - rewrite IH. destruct (Ascii.eqb c sep); [reflexivity |].
    pose proof (split_not_empty sep a) as Hne.
    destruct (split sep a) as [|p ps]; [contradiction | reflexivity].
Qed.

Lemma split_two_parts (sep : ascii) (s : string) :
  includes (String sep EmptyString) s = true ->
  exists first second others, split sep s = first :: second :: others.
Proof.
  induction s as [|c r IH]; intros H.
  - discriminate H.
  - cbn [includes startsWith] in H. simpl.
    destruct (Ascii.eqb c sep) eqn:E.
    + pose proof (split_not_empty sep r) as Hne.
      destruct (split sep r) as [|p ps]; [contradiction |]. eauto.
    + rewrite Ascii.eqb_sym in E. rewrite E in H. simpl in H.
      destruct (IH H) as (first & second & others & Hs). rewrite Hs. eauto.
Qed.

(** [isValidEmail] (and with it [validateEmail]) checks the text before the
    first [@] and the text between the first and the second [@], and nothing
    after a second [@]: an accepted address stays accepted with [@] and any
    text appended to it. *)
Theorem only_two_parts_are_checked (email tail : string) :
  isValidEmail email = true ->
  isValidEmail (email ++ "@" ++ tail) = true
  /\ validateEmail (email ++ "@" ++ tail) = true.
Proof.
  intros Hvalid.
  assert (Hgoal : isValidEmail (email ++ "@" ++ tail) = true).
  { unfold isValidEmail in *.
    destruct (String.eqb email "") eqn:Hempty; [discriminate Hvalid |].
    destruct (includes "@" email) eqn:Hat; [| discriminate Hvalid].
    simpl in Hvalid.
    destruct email as [|c email]; [discriminate Hempty |].
    change ((String c email ++ "@" ++ tail)%string)
      with (String c (email ++ String "@" tail)).
    change (String.eqb (String c (email ++ String "@" tail)) "") with false.
    change (String c (email ++ String "@" tail))
      with ((String c email ++ String "@" tail)%string).
    rewrite (includes_app "@" (String c email) (String "@" tail) Hat).
    rewrite split_app.
    destruct (split_two_parts "@" (String c email) Hat)
      as (localPart & domainPart & others & Hs).
    rewrite Hs in *. exact Hvalid. }
  split; [exact Hgoal |].
  unfold validateEmail. apply ValidationFacts.no_errors_forallb.
  simpl. rewrite Hgoal. reflexivity.
Qed.

End MoreValidationFacts.

Module TableFacts.

Lemma column_def_createTable (columns : list (string * column_model)) (schema table column : string) :
  column_def (createTable (Model schema table columns)) column
  = match model_column columns column with
    | Some c =>
        Some (let b := if is_serial (type c) then increments else plain_column (type c) in
              let b := if primaryKey c then primary b else b in
              if notNull c then notNullable b else b)
    | None => None
    end.
Proof.
  unfold createTable. simpl.
  induction columns as [|[name c] rest IH]; simpl; [reflexivity |].
  destruct (String.eqb name column); [reflexivity | exact IH].
Qed.

(** The tables [createTable] declares: it keeps the columns of the model in
    their order; a column rejects duplicates exactly when the model marks it
    as [serial] or as primary key -- no other column ever gets a unique
    constraint -- and it rejects [NULL] exactly when it is one of those or
    marked [notNull]. *)
Theorem createTable_constraints (m : model) :
  map fst (createTable m) = map fst (columns m)
  /\ Forall (fun entry => cb_unique (snd entry) = false) (createTable m)
  /\ (forall column,
         enforces_unique (createTable m) column
         = match model_column (columns m) column with
           | Some c => is_serial (type c) || primaryKey c
           | None => false
           end)
  /\ (forall column,
         enforces_not_null (createTable m) column
         = match model_column (columns m) column with
           | Some c => is_serial (type c) || primaryKey c || notNull c
           | None => false
           end).
Proof.
  destruct m as [schema table columns]. simpl.
  split; [| split; [| split]].
  - unfold createTable. simpl. induction columns as [|[name c] rest IH]; simpl.
    + reflexivity.
    + f_equal. exact IH.
  - unfold createTable. simpl. induction columns as [|[name c] rest IH]; simpl.
    + constructor.
    + constructor; [| exact IH].
      destruct c as [t pk nn]. simpl. destruct (is_serial t), pk, nn; reflexivity.
  - intros column. unfold enforces_unique. rewrite column_def_createTable.
    destruct (model_column columns column) as [[t pk nn]|]; [| reflexivity].
    simpl. destruct (is_serial t), pk, nn; reflexivity.
  - intros column. unfold enforces_not_null. rewrite column_def_createTable.
    destruct (model_column columns column) as [[t pk nn]|]; [| reflexivity].
    simpl. destruct (is_serial t), pk, nn; reflexivity.
Qed.

End TableFacts.

Module AppFacts.
Import App.

Lemma check_required_cases (env : gmap string string) (names : list string) (rest : started) :
  (check_required env names rest = rest
   /\ Forall (fun name => set_in env name = true) names)
  \/ exists before name after,
       names = before ++ name :: after
       /\ Forall (fun name => set_in env name = true) before
       /\ set_in env name = false
       /\ check_required env names rest
          = Exits 1 ("Missing required environment variable: " ++ name)%string.
Proof.
  induction names as [|name names IH]; simpl.
  - left. split; [reflexivity | constructor].
  - destruct (set_in env name) eqn:E; simpl.
    + destruct IH as [[Hrest Hall] | (before & missing & after & Hnames & Hall & Hmiss & Hrun)].
      * left. split; [exact Hrest | constructor; assumption].
      * right. exists (name :: before), missing, after.
        subst names.
        split; [reflexivity | split; [constructor; assumption | split; assumption]].
    + right. exists [], name, names.
      split; [reflexivity | split; [constructor | split; [exact E | reflexivity]]].
Qed.

(** The server starts listening only if each of the ten required variables
    is set and not empty, and then on the port of [SERVER_PORT]: the default
    5001 is never used.  Otherwise the process exits with code 1 and reports
    the first of the required variables, in the order of the list, that is
    missing. *)
Theorem start_requires_the_environment (env : gmap string string) :
  match start env with
  | Listens on =>
      Forall (fun name => set_in env name = true) requiredEnvVars
      /\ exists value, on = FromEnvironment value
                       /\ env !! "SERVER_PORT" = Some value
                       /\ value <> ""
  | Exits code reported =>
      code = 1
      /\ exists before name after,
           requiredEnvVars = before ++ name :: after
           /\ Forall (fun name => set_in env name = true) before
           /\ set_in env name = false
           /\ reported = ("Missing required environment variable: " ++ name)%string
  end.
Proof.
  unfold start.
  destruct (check_required_cases env requiredEnvVars (Listens (PORT env)))
    as [[Hrun Hall] | (before & name & after & Hnames & Hall & Hmiss & Hrun)];
    rewrite Hrun.
  - split; [exact Hall |].
    assert (Hport : set_in env "SERVER_PORT" = true).
    { rewrite List.Forall_forall in Hall. apply Hall. unfold requiredEnvVars.
      simpl. tauto. }
    unfold set_in in Hport. unfold PORT.
    destruct (env !! "SERVER_PORT") as [value|]; [| discriminate Hport].
    destruct (String.eqb value "") eqn:E; [discriminate Hport |].
    exists value. repeat split. apply String.eqb_neq. exact E.
  - split; [reflexivity |]. exists before, name, after. auto.
Qed.

End AppFacts.

(* ===================================================================== *)
(** * Further properties: keys and sequences *)
(* ===================================================================== *)

Module InvariantFacts.
Import DatabaseService MailService StorageFacts.

Lemma keys_in_order_later (o o' t t' : Z) (tb : tables) :
  o <= o' -> t <= t' -> keys_in_order o t tb -> keys_in_order o' t' tb.
Proof.
  intros Ho Ht [H1 H2 H3 H4]. constructor; auto.
  - eapply List.Forall_impl; [| exact H1]. simpl. intros r Hr. lia.
  - eapply List.Forall_impl; [| exact H2]. simpl. intros r Hr. lia.
Qed.

Lemma fresh_key_distinct {A : Type} (key : A -> Z) (rows : list A) (row : A) :
  Forall (fun r => key r < key row) rows ->
  List.NoDup (map key rows) ->
  List.NoDup (map key (rows ++ [row])).
Proof.
  intros Hbelow Hdistinct. rewrite List.map_app. simpl.
  apply List.NoDup_app; [exact Hdistinct | repeat constructor; simpl; tauto |].
  intros k Hin [Hk | []]. subst k.
  apply in_map_iff in Hin. destruct Hin as [r [Hr Hin]].
  rewrite List.Forall_forall in Hbelow. specialize (Hbelow r Hin). lia.
Qed.

Lemma filtered_keys_distinct {A : Type} (key : A -> Z) (p : A -> bool) (rows : list A) :
  List.NoDup (map key rows) -> List.NoDup (map key (List.filter p rows)).
Proof.
  induction rows as [|r rows IH]; simpl; intros H; [constructor |].
  inversion H as [|? ? Hr Hrest]; subst.
  destruct (p r); simpl; [| apply IH; exact Hrest].
  constructor; [| apply IH; exact Hrest].
  intros Hin. apply Hr. apply in_map_iff in Hin. destruct Hin as [x [Hx Hin]].
  apply List.filter_In in Hin. apply in_map_iff. exists x. tauto.
Qed.

Lemma filtered_keys_below {A : Type} (P : A -> Prop) (p : A -> bool) (rows : list A) :
  Forall P rows -> Forall P (List.filter p rows).
Proof.
  induction 1 as [|r rows Hr _ IH]; simpl; [constructor |].
  destruct (p r); [constructor; assumption | exact IH].
Qed.

Lemma updated_keys (id : Z) (u : operator_update) (rows : list operator_row) :
  map o_id (map (fun r => if o_id r =? id then apply_update u r else r) rows)
  = map o_id rows.
Proof.
  induction rows as [|r rows IH]; simpl; [reflexivity |].
  rewrite IH. destruct (o_id r =? id); reflexivity.
Qed.

Lemma updated_keys_below (o id : Z) (u : operator_update) (rows : list operator_row) :
  Forall (fun r => o_id r < o) rows ->
  Forall (fun r => o_id r < o)
         (map (fun r => if o_id r =? id then apply_update u r else r) rows).
Proof.
  induction 1 as [|r rows Hr _ IH]; simpl; constructor; auto.
  destruct (o_id r =? id); simpl; exact Hr.
Qed.

Lemma consistent_set_wire f l w : consistent w -> consistent (set_wire f l w).
Proof. intros H. exact H. Qed.

Lemma consistent_set_sessions s w : consistent w -> consistent (set_sessions s w).
Proof. intros H. exact H. Qed.

Lemma preserving_ret {A : Type} (a : A) : preserving (ret a).
Proof. intros w H. exact H. Qed.

Lemma preserving_throw {A : Type} (error : js_error) : preserving (@throw A error).
Proof. intros w H. exact H. Qed.

Lemma preserving_bind {A B : Type} (m : IO A) (k : A -> IO B) :
  preserving m -> (forall a, preserving (k a)) -> preserving (bind m k).
Proof.
  intros Hm Hk w H. specialize (Hm w H). unfold bind.
  destruct (m w) as [[a | error |] w1]; simpl in *; auto.
  apply Hk. exact Hm.
Qed.

Lemma preserving_try_catch {A : Type} (m : IO A) (handler : js_error -> IO A) :
  preserving m -> (forall error, preserving (handler error)) ->
  preserving (try_catch m handler).
Proof.
  intros Hm Hh w H. specialize (Hm w H). unfold try_catch.
  destruct (m w) as [[a | error |] w1]; simpl in *; auto.
  apply Hh. exact Hm.
Qed.

Lemma preserving_round_trip (q : query) : preserving (round_trip q).
Proof. intros w H. rewrite round_trip_run. exact H. Qed.

Lemma preserving_select_first {A : Type} from (rows : tables -> list A) p :
  preserving (select_first from rows p).
Proof.
  unfold select_first. apply preserving_bind; [apply preserving_round_trip |].
  intros _ w H. unfold on_tables. simpl. destruct w; exact H.
Qed.

Lemma preserving_insert_into_operators into transacting email pw name :
  preserving (insert_into_operators into transacting None email pw name).
Proof.
  unfold insert_into_operators.
  apply preserving_bind; [apply preserving_round_trip |].
  intros _ w [Hc Ht]. unfold bind, nextval_operators, on_tables. simpl.
  assert (Hlater : consistent (set_operators_id_seq (operators_id_seq w + 1) w)).
  { split; simpl.
    - eapply keys_in_order_later; [| | exact Hc]; lia.
    - intros t E. eapply keys_in_order_later; [| | exact (Ht t E)]; lia. }
  assert (Hinsert : forall t,
             keys_in_order (operators_id_seq w) (tokens_id_seq w) t ->
             keys_in_order (operators_id_seq w + 1) (tokens_id_seq w)
               (Tables (operators t ++ [OperatorRow (operators_id_seq w) email pw name])
                       (tokens t))).
  { intros t [H1 H2 H3 H4]. constructor; simpl; auto.
    - apply List.Forall_app. split.
      + eapply List.Forall_impl; [| exact H1]. simpl. intros r Hr. lia.
      + repeat constructor. simpl. lia.
    - apply (fresh_key_distinct o_id); assumption. }
  destruct transacting.
  - destruct (transaction w) as [t|] eqn:E; simpl; [| exact Hlater].
    destruct (insert_operator_cases (operators_def (catalog_of w))
                (OperatorRow (operators_id_seq w) email pw name) (operators t))
      as [Hr | [error Hr]]; rewrite Hr; simpl; [| exact Hlater].
    split; simpl.
    + exact (proj1 Hlater).
    + intros t' Et. injection Et as <-. apply Hinsert. exact (Ht t eq_refl).
  - destruct (insert_operator_cases (operators_def (catalog_of w))
                (OperatorRow (operators_id_seq w) email pw name) (operators (committed w)))
      as [Hr | [error Hr]]; rewrite Hr; simpl; [| exact Hlater].
    split; simpl.
    + apply Hinsert. exact Hc.
    + exact (proj2 Hlater).
Qed.

Lemma preserving_insert_into_tokens into transacting fk token created_at :
  preserving (insert_into_tokens into transacting fk token created_at).
Proof.
  unfold insert_into_tokens.
  apply preserving_bind; [apply preserving_round_trip |].
  intros _ w [Hc Ht]. unfold bind, nextval_tokens, on_tables. simpl.
  assert (Hlater : consistent (set_tokens_id_seq (tokens_id_seq w + 1) w)).
  { split; simpl.
    - eapply keys_in_order_later; [| | exact Hc]; lia.
    - intros t E. eapply keys_in_order_later; [| | exact (Ht t E)]; lia. }
  assert (Hinsert : forall t,
             keys_in_order (operators_id_seq w) (tokens_id_seq w) t ->
             keys_in_order (operators_id_seq w) (tokens_id_seq w + 1)
               (Tables (operators t)
                       (tokens t ++ [TokenRow (tokens_id_seq w) fk token created_at]))).
  { intros t [H1 H2 H3 H4]. constructor; simpl; auto.
    - apply List.Forall_app. split.
      + eapply List.Forall_impl; [| exact H2]. simpl. intros r Hr. lia.
      + repeat constructor. simpl. lia.
    - apply (fresh_key_distinct t_id); assumption. }
  destruct transacting.
  - destruct (transaction w) as [t|] eqn:E; simpl; [| exact Hlater].
    destruct (insert_token_cases (tokens_def (catalog_of w))
                (TokenRow (tokens_id_seq w) fk token created_at) (tokens t))
      as [Hr | [error Hr]]; rewrite Hr; simpl; [| exact Hlater].
    split; simpl.
    + exact (proj1 Hlater).
    + intros t' Et. injection Et as <-. apply Hinsert. exact (Ht t eq_refl).
  - destruct (insert_token_cases (tokens_def (catalog_of w))
                (TokenRow (tokens_id_seq w) fk token created_at) (tokens (committed w)))
      as [Hr | [error Hr]]; rewrite Hr; simpl; [| exact Hlater].
    split; simpl.
    + apply Hinsert. exact Hc.
    + exact (proj2 Hlater).
Qed.

Lemma preserving_update into transacting id u :
  preserving (update_operators_where_id into transacting id u).
Proof.
  unfold update_operators_where_id.
  apply preserving_bind; [apply preserving_round_trip |].
  intros _ w Hw. pose proof Hw as [Hc Ht]. unfold on_tables.
  assert (Hupdate : forall t,
             keys_in_order (operators_id_seq w) (tokens_id_seq w) t ->
             keys_in_order (operators_id_seq w) (tokens_id_seq w)
               (Tables (map (fun r => if o_id r =? id then apply_update u r else r)
                            (operators t))
                       (tokens t))).
  { intros t [H1 H2 H3 H4]. constructor; simpl; auto.
    - apply updated_keys_below. exact H1.
    - rewrite updated_keys. exact H3. }
  destruct transacting.
  - destruct (transaction w) as [t|] eqn:E; simpl; [| exact Hw].
    destruct (update_operators_cases (operators_def (catalog_of w)) id u (operators t))
      as [Hr | [error Hr]]; rewrite Hr; simpl; [| exact Hw].
    split; simpl; [exact Hc |].
    intros t' Et. injection Et as <-. apply Hupdate. exact (Ht t eq_refl).
  - destruct (update_operators_cases (operators_def (catalog_of w)) id u
                (operators (committed w)))
      as [Hr | [error Hr]]; rewrite Hr; simpl; [| exact Hw].
    split; simpl; [apply Hupdate; exact Hc | exact Ht].
Qed.

Lemma preserving_delete from transacting token :
  preserving (delete_from_tokens from transacting token).
Proof.
  unfold delete_from_tokens.
  apply preserving_bind; [apply preserving_round_trip |].
  intros _ w Hw. pose proof Hw as [Hc Ht]. unfold on_tables.
  assert (Hdelete : forall t,
             keys_in_order (operators_id_seq w) (tokens_id_seq w) t ->
             keys_in_order (operators_id_seq w) (tokens_id_seq w)
               (Tables (operators t) (delete_tokens token (tokens t)))).
  { intros t [H1 H2 H3 H4]. constructor; simpl; auto.
    - apply filtered_keys_below. exact H2.
    - apply filtered_keys_distinct. exact H4. }
  destruct transacting.
  - destruct (transaction w) as [t|] eqn:E; simpl; [| exact Hw].
    split; simpl; [exact Hc |].
    intros t' Et. injection Et as <-. apply Hdelete. exact (Ht t eq_refl).
  - simpl. split; simpl; [apply Hdelete; exact Hc | exact Ht].
Qed.

Lemma preserving_trx_commit : preserving trx_commit.
Proof.
  intros w [Hc Ht]. unfold trx_commit. rewrite round_trip_run.
  destruct (next_fault_cases w) as [E | [error E]]; rewrite E; simpl.
  - split; simpl; [| discriminate].
    destruct (transaction w) as [t|] eqn:Et; simpl; [exact (Ht t eq_refl) | exact Hc].
  - split; simpl; [exact Hc | discriminate].
Qed.

Lemma preserving_trx_rollback (error : js_error) : preserving (trx_rollback error).
Proof.
  intros w [Hc Ht]. unfold trx_rollback. rewrite round_trip_run.
  destruct (next_fault_cases w) as [E | [error' E]]; rewrite E; simpl;
    (split; simpl; [exact Hc | discriminate]).
Qed.

Lemma preserving_knex_transaction (container : IO unit) :
  preserving container -> preserving (knex_transaction container).
Proof.
  intros Hcontainer w [Hc Ht]. unfold knex_transaction. rewrite round_trip_run.
  destruct (next_fault_cases w) as [E | [error E]]; rewrite E; simpl;
    [| split; assumption].
  match goal with
  | |- context [container ?w2] =>
      assert (H2 : consistent w2)
        by (split; simpl; [exact Hc | intros t Et; injection Et as <-; exact Hc]);
      specialize (Hcontainer w2 H2); destruct (container w2) as [r w3]
  end.
  simpl in Hcontainer.
  destruct (settled w3) as [[error|]|]; simpl; exact Hcontainer.
Qed.

Lemma preserving_sendMail transport mailRecipient mailSubject mailText :
  preserving (sendMail transport mailRecipient mailSubject mailText).
Proof.
  intros w H. unfold sendMail, try_catch, throw.
  destruct transport as [response | error |]; exact H.
Qed.

Lemma preserving_response_json (r : response) : preserving (response_json r).
Proof. intros w H. exact H. Qed.

Lemma preserving_rd_error (responseData : response_data) :
  preserving (rd_error responseData).
Proof. intros w H. destruct responseData; exact H. Qed.

(** Compositions of the statements above keep worlds consistent. *)
Ltac keep_step :=
  first
    [ apply preserving_ret
    | apply preserving_throw
    | apply preserving_round_trip
    | apply preserving_select_first
    | apply preserving_insert_into_operators
    | apply preserving_insert_into_tokens
    | apply preserving_update
    | apply preserving_delete
    | apply preserving_trx_commit
    | apply preserving_trx_rollback
    | apply preserving_sendMail
    | apply preserving_response_json
    | apply preserving_rd_error
    | apply preserving_knex_transaction
    | apply preserving_try_catch
    | apply preserving_bind
    | match goal with
      | |- forall _, _ => intro
      | |- preserving (match ?x with _ => _ end) => destruct x
      | |- preserving (if ?b then _ else _) => destruct b
      | |- preserving (let _ := _ in _) => cbv zeta
      end ].

Ltac keep_consistent := repeat keep_step.

Lemma preserving_getOperatorByEmail email : preserving (getOperatorByEmail email).
Proof. unfold getOperatorByEmail, rethrow. keep_consistent. Qed.

Lemma preserving_getOperatorByName name : preserving (getOperatorByName name).
Proof. unfold getOperatorByName, rethrow. keep_consistent. Qed.

Lemma preserving_getOperatorByToken token : preserving (getOperatorByToken token).
Proof. unfold getOperatorByToken, rethrow. keep_consistent. Qed.

Lemma preserving_getResetTokenRecord now token :
  preserving (getResetTokenRecord now token).
Proof. unfold getResetTokenRecord, rethrow. keep_consistent. Qed.

Lemma preserving_getInviteTokenRecord token : preserving (getInviteTokenRecord token).
Proof. unfold getInviteTokenRecord, rethrow. keep_consistent. Qed.

Lemma preserving_setResetToken currentTime operator token :
  preserving (setResetToken currentTime operator token).
Proof. unfold setResetToken. keep_consistent. Qed.

Lemma preserving_setInviteToken currentTime operator token :
  preserving (setInviteToken currentTime operator token).
Proof. unfold setInviteToken, rethrow. keep_consistent. Qed.

Lemma preserving_updateOperator name operator : preserving (updateOperator name operator).
Proof. unfold updateOperator, rethrow. keep_consistent. Qed.

Lemma preserving_updatePassword hash token_record :
  preserving (updatePassword hash token_record).
Proof. unfold updatePassword, rethrow. keep_consistent. Qed.

Lemma preserving_initOperator operator hash token_record :
  preserving (initOperator operator hash token_record).
Proof. unfold initOperator, rethrow. keep_consistent. Qed.

(** [initDataTables], whatever the address and the name of the genesis
    operator: the tables hold that operator alone, under the key 0 and with
    the fixed password hash, both sequences are at their first value 1, and
    the world is consistent. *)
Lemma initDataTables_consistent (GENESIS_EMAIL GENESIS_OPERATOR : string) :
  committed (initDataTables GENESIS_EMAIL GENESIS_OPERATOR)
  = Tables [OperatorRow 0 GENESIS_EMAIL (Some genesis_hash) GENESIS_OPERATOR] []
  /\ operators_id_seq (initDataTables GENESIS_EMAIL GENESIS_OPERATOR) = 1
  /\ tokens_id_seq (initDataTables GENESIS_EMAIL GENESIS_OPERATOR) = 1
  /\ catalog_of (initDataTables GENESIS_EMAIL GENESIS_OPERATOR) = initial_catalog
  /\ consistent (initDataTables GENESIS_EMAIL GENESIS_OPERATOR).
Proof.
  split; [reflexivity | split; [reflexivity | split; [reflexivity | split; [reflexivity |]]]].
  split.
  - constructor; simpl.
    + repeat constructor.
    + constructor.
    + repeat constructor. simpl. tauto.
    + constructor.
  - intros t E. discriminate E.
Qed.

End InvariantFacts.

(* ===================================================================== *)
(** * The session store under the database and mail services *)
(* ===================================================================== *)

Module SessionFacts.

Import DatabaseService MailService StorageFacts.

Lemma session_free_ret {A : Type} (a : A) : session_free (ret a).
Proof. intros w. reflexivity. Qed.

Lemma session_free_throw {A : Type} (error : js_error) : session_free (@throw A error).
Proof. intros w. reflexivity. Qed.

Lemma session_free_bind {A B : Type} (m : IO A) (k : A -> IO B) :
  session_free m -> (forall a, session_free (k a)) -> session_free (bind m k).
Proof.
  intros Hm Hk w. specialize (Hm w). unfold bind.
  destruct (m w) as [[a | error |] w1]; simpl in *; auto.
  rewrite Hk. exact Hm.
Qed.

Lemma session_free_try_catch {A : Type} (m : IO A) (handler : js_error -> IO A) :
  session_free m -> (forall error, session_free (handler error)) ->
  session_free (try_catch m handler).
Proof.
  intros Hm Hh w. specialize (Hm w). unfold try_catch.
  destruct (m w) as [[a | error |] w1]; simpl in *; auto.
  rewrite Hh. exact Hm.
Qed.

Lemma session_free_round_trip (q : query) : session_free (round_trip q).
Proof. intros w. rewrite round_trip_run. reflexivity. Qed.

Lemma session_free_on_tables {A : Type} (transacting : bool)
    (f : catalog -> tables -> outcome (A * tables)) :
  session_free (on_tables transacting f).
Proof.
  intros w. unfold on_tables.
  destruct (if transacting then transaction w else Some (committed w)) as [t|];
    [| reflexivity].
  destruct (f (catalog_of w) t) as [[a t'] | error |]; [| reflexivity | reflexivity].
  destruct transacting; reflexivity.
Qed.

Lemma session_free_nextval_operators : session_free nextval_operators.
Proof. intros w. reflexivity. Qed.

Lemma session_free_nextval_tokens : session_free nextval_tokens.
Proof. intros w. reflexivity. Qed.

Lemma session_free_trx_commit : session_free trx_commit.
Proof.
  intros w. unfold trx_commit. rewrite round_trip_run.
  destruct (next_fault w) as [[] | error |]; reflexivity.
Qed.

Lemma session_free_trx_rollback (error : js_error) : session_free (trx_rollback error).
Proof.
  intros w. unfold trx_rollback. rewrite round_trip_run.
  destruct (next_fault w) as [[] | error' |]; reflexivity.
Qed.

Lemma session_free_knex_transaction (container : IO unit) :
  session_free container -> session_free (knex_transaction container).
Proof.
  intros Hcontainer w. unfold knex_transaction. rewrite round_trip_run.
  destruct (next_fault w) as [[] | error |]; [| reflexivity | reflexivity].
  match goal with
  | |- context [container ?w2] =>
      specialize (Hcontainer w2); destruct (container w2) as [r w3]
  end.
  simpl in Hcontainer.
  destruct (settled w3) as [[error|]|]; simpl; exact Hcontainer.
Qed.

Lemma session_free_sendMail transport mailRecipient mailSubject mailText :
  session_free (sendMail transport mailRecipient mailSubject mailText).
Proof.
  intros w. unfold sendMail, try_catch, throw.
  destruct transport as [response | error |]; reflexivity.
Qed.

Lemma session_free_response_json (r : response) : session_free (response_json r).
Proof. intros w. reflexivity. Qed.

Lemma session_free_rd_error (responseData : response_data) :
  session_free (rd_error responseData).
Proof. intros w. destruct responseData; reflexivity. Qed.

(** Compositions of the statements above leave the session store alone. *)
Ltac frame_step :=
  first
    [ apply session_free_ret
    | apply session_free_throw
    | apply session_free_round_trip
    | apply session_free_on_tables
    | apply session_free_nextval_operators
    | apply session_free_nextval_tokens
    | apply session_free_trx_commit
    | apply session_free_trx_rollback
    | apply session_free_sendMail
    | apply session_free_response_json
    | apply session_free_rd_error
    | apply session_free_knex_transaction
    | apply session_free_try_catch
    | apply session_free_bind
    | match goal with
      | |- forall _, _ => intro
      | |- session_free (match ?x with _ => _ end) => destruct x
      | |- session_free (if ?b then _ else _) => destruct b
      | |- session_free (let _ := _ in _) => cbv zeta
      end ].

Ltac frame_sessions :=
  unfold getOperatorByEmail, getOperatorByName, getOperatorByToken,
    getResetTokenRecord, getInviteTokenRecord, setResetToken, setInviteToken,
    updateOperator, updatePassword, initOperator, rethrow,
    select_first, insert_into_operators, insert_into_tokens,
    update_operators_where_id, delete_from_tokens;
  repeat frame_step.

End SessionFacts.

(* ===================================================================== *)
(** * Further properties of the controllers *)
(* ===================================================================== *)

Section MoreGatewayFacts.

Variable validateEmail : string -> bool.
Variable bcrypt_hash : string -> string.
Variable bcrypt_check : string -> string -> bool.
Variable jwt_sign : option Z -> Z -> string.
Variable root : string.

Import DatabaseService MailService StorageFacts InvariantFacts SessionFacts.

(** ** Keys and sequences under the controllers *)

Ltac keep_all :=
  repeat first
    [ apply preserving_getOperatorByEmail
    | apply preserving_getOperatorByName
    | apply preserving_getOperatorByToken
    | apply preserving_getResetTokenRecord
    | apply preserving_getInviteTokenRecord
    | apply preserving_setResetToken
    | apply preserving_setInviteToken
    | apply preserving_updateOperator
    | apply preserving_updatePassword
    | apply preserving_initOperator
    | keep_step ].

Lemma preserving_forgot now token transport mailRecipient :
  preserving (forgot validateEmail root now token transport mailRecipient).
Proof. unfold forgot, responding. keep_all. Qed.

Lemma preserving_password now token pw :
  preserving (password bcrypt_hash now token pw).
Proof. unfold password, responding. keep_all. Qed.

Lemma preserving_operator user_id name : preserving (operator user_id name).
Proof. unfold operator, responding. keep_all. Qed.

Lemma preserving_probe name : preserving (probe name).
Proof. unfold probe, responding. keep_all. Qed.

Lemma preserving_invite now token transport mailRecipient :
  preserving (invite validateEmail root now token transport mailRecipient).
Proof. unfold invite, responding. keep_all. Qed.

Lemma preserving_welcome token : preserving (welcome token).
Proof. unfold welcome, responding. keep_all. Qed.

Lemma preserving_init token pw name : preserving (init bcrypt_hash token pw name).
Proof. unfold init, responding. keep_all. Qed.

Lemma preserving_login now sid email pw :
  preserving (login bcrypt_check jwt_sign now sid email pw).
Proof.
  unfold login, passport_authenticate, localStrategy, req_login, set_session_token.
  keep_all.
  all: try (intros w H; exact H).
Qed.

Lemma preserving_GET_logout cookie : preserving (GET_logout cookie).
Proof.
  intros w H. unfold GET_logout, isAuthenticated, logout.
  destruct (bool_decide _); [| exact H]. destruct cookie; exact H.
Qed.

(** The database [initDataTables] creates is consistent -- the keys of each
    table are distinct and below the next value of its sequence -- and every
    controller keeps a consistent world consistent, whatever round trip
    fails and whatever the mail service answers. *)
Theorem controllers_keep_keys_in_order (w : world) :
  consistent w ->
  (forall GENESIS_EMAIL GENESIS_OPERATOR,
      consistent (initDataTables GENESIS_EMAIL GENESIS_OPERATOR))
  /\ (forall now token transport mailRecipient,
      consistent (snd (forgot validateEmail root now token transport mailRecipient w)))
  /\ (forall now token pw, consistent (snd (password bcrypt_hash now token pw w)))
  /\ (forall user_id name, consistent (snd (operator user_id name w)))
  /\ (forall name, consistent (snd (probe name w)))
  /\ (forall now token transport mailRecipient,
      consistent (snd (invite validateEmail root now token transport mailRecipient w)))
  /\ (forall token, consistent (snd (welcome token w)))
  /\ (forall token pw name, consistent (snd (init bcrypt_hash token pw name w)))
  /\ (forall now sid email pw,
      consistent (snd (login bcrypt_check jwt_sign now sid email pw w)))
  /\ (forall cookie, consistent (snd (GET_logout cookie w))).
Proof using validateEmail bcrypt_hash bcrypt_check jwt_sign root.
  intros H.
  split; [intros e n; apply initDataTables_consistent |].
  split; [intros; apply preserving_forgot; exact H |].
  split; [intros; apply preserving_password; exact H |].
  split; [intros; apply preserving_operator; exact H |].
  split; [intros; apply preserving_probe; exact H |].
  split; [intros; apply preserving_invite; exact H |].
  split; [intros; apply preserving_welcome; exact H |].
  split; [intros; apply preserving_init; exact H |].
  split; [intros; apply preserving_login; exact H |].
  intros; apply preserving_GET_logout; exact H.
Qed.

(** ** Reads *)

(** [probe] only reads, whatever happens: it makes the one lookup, and the
    world afterwards differs from the one before in nothing but the record
    of that round trip.  It answers "This name is taken." when a row has
    the name, that the name is available when none has -- without looking
    at the shape of the name -- and with the driver's message when the
    lookup fails. *)
Theorem probe_reads_only (name : string) (w : world) :
  probe name w
  = (Resolved
       (match next_fault w with
        | Rejected error => failed_with error
        | _ =>
            if existsb (fun r => String.eqb (o_operator r) name) (operators (committed w))
            then name_taken
            else name_available name
        end),
     set_wire (tl (faults w)) (Select "operators" :: log w) w).
Proof.
  unfold probe, responding, getOperatorByName, rethrow, select_first.
  unfold try_catch, bind, on_tables. rewrite round_trip_run.
  destruct (next_fault_cases w) as [E | [error E]]; rewrite E; simpl.
  - rewrite find_existsb.
    destruct (List.find _ (operators (committed w))); simpl; destruct w; reflexivity.
  - reflexivity.
Qed.

(** [welcome] only reads, and a success discloses the address of an
    operator that a token row with the given value refers to; when no token
    row has the value the answer is "There is no invitation for this
    token.". *)
Theorem welcome_discloses_only_the_owner (token : string) (w : world) :
  snd (welcome token w) = set_wire (tl (faults w)) (Select "tokens" :: log w) w
  /\ (exists r, fst (welcome token w) = Resolved r
        /\ (r = no_invitation
            \/ (exists error, next_fault w = Rejected error /\ r = failed_with error)
            \/ exists tk op,
                 In tk (tokens (committed w)) /\ In op (operators (committed w))
                 /\ t_token tk = token /\ t_fk_operator tk = o_id op
                 /\ r = res_json 200 true (o_email op)))
  /\ ((forall tk, In tk (tokens (committed w)) -> t_token tk <> token) ->
      next_fault w = Resolved tt ->
      fst (welcome token w) = Resolved no_invitation).
Proof.
  unfold welcome, responding, getOperatorByToken, rethrow, select_first.
  unfold try_catch, bind, on_tables. rewrite round_trip_run.
  destruct (next_fault_cases w) as [E | [error E]]; rewrite E; simpl.
  - destruct (List.find _ (join_tokens_operators (committed w))) as [[tk op]|] eqn:F; simpl.
    + apply find_some in F. destruct F as [Hin Htok]. simpl in Htok.
      apply String.eqb_eq in Htok.
      unfold join_tokens_operators in Hin. apply in_flat_map in Hin.
      destruct Hin as [tk' [Htk Hpair]]. apply in_map_iff in Hpair.
      destruct Hpair as [op' [Heq Hop]]. injection Heq as -> ->.
      apply List.filter_In in Hop. destruct Hop as [Hop Hfk]. apply Z.eqb_eq in Hfk.
      split; [destruct w; reflexivity |]. split.
      * eexists. split; [reflexivity |]. right. right. exists tk, op. auto 10.
      * intros Hnone _. exfalso. exact (Hnone tk Htk Htok).
    + split; [destruct w; reflexivity |]. split.
      * eexists. split; [reflexivity |]. left. reflexivity.
      * intros _ _. reflexivity.
  - split; [reflexivity |]. split.
    + eexists. split; [reflexivity |]. right. left. exists error. auto.
    + intros _ H. discriminate H.
Qed.

(** ** Addresses *)

(** An address the validation refuses is answered "That's not a valid
    email!" by [forgot] and by [invite] before any round trip: the world is
    untouched. *)
Theorem invalid_address_is_refused_first (now : Z) (token mailRecipient : string)
    (transport : outcome response) (w : world) :
  validateEmail mailRecipient = false ->
  forgot validateEmail root now token transport mailRecipient w
  = (Resolved not_a_valid_email, w)
  /\ invite validateEmail root now token transport mailRecipient w
     = (Resolved not_a_valid_email, w).
Proof.
  intros Hinvalid. unfold forgot, invite, responding. rewrite Hinvalid. simpl.
  split; reflexivity.
Qed.

(** For an address that no operator has, [forgot] gives the answer it gives
    after a successful mail, writes nothing and sends no mail: the answer
    does not depend on the mail service. *)
Theorem forgot_unknown_address (now : Z) (token mailRecipient : string)
    (transport : outcome response) (w : world) :
  faults w = [] ->
  validateEmail mailRecipient = true ->
  (forall r, In r (operators (committed w)) -> o_email r <> mailRecipient) ->
  forgot validateEmail root now token transport mailRecipient w
  = (Resolved mail_on_its_way, answered (Select "operators") w).
Proof.
  intros Hf Hvalid Hnone.
  unfold forgot, responding. rewrite Hvalid. simpl. unfold try_catch, bind.
  rewrite getOperatorByEmail_quiet by assumption.
  destruct (List.find _ (operators (committed w))) as [r|] eqn:F; [| reflexivity].
  apply find_some in F. destruct F as [Hin Hr]. apply String.eqb_eq in Hr.
  exfalso. exact (Hnone r Hin Hr).
Qed.

(** ** The rate-limit signal *)

(** When the insert of the reset token fails, [forgot] writes nothing, sends
    no mail (its answer does not depend on the mail service) and answers
    with the rate-limit message for every error whose code is 23505, with
    the message of the error itself otherwise. *)
Theorem rate_limit_signal_is_any_23505 (now : Z) (token mailRecipient : string)
    (transport : outcome response) (operator : operator_row) (error : js_error)
    (rest : list (option js_error)) (w w1 : world) :
  validateEmail mailRecipient = true ->
  getOperatorByEmail mailRecipient w = (Resolved (Some operator), w1) ->
  faults w1 = Some error :: rest ->
  forgot validateEmail root now token transport mailRecipient w
  = (Resolved (if same_text (code error) (Some "23505")
               then rate_limited else failed_with error),
     set_wire rest (Insert "tokens" :: log w1) w1).
Proof.
  intros Hvalid Hget Hfault.
  unfold forgot, responding. rewrite Hvalid. simpl. unfold try_catch, bind.
  rewrite Hget. unfold setResetToken, insert_into_tokens, try_catch, bind.
  rewrite round_trip_run. unfold next_fault. rewrite Hfault.
  destruct (same_text (code error) (Some "23505")); reflexivity.
Qed.

(** A collision on the primary key of [tokens] is such an error.  If a
    token row already has the key the sequence hands out next, [forgot]
    answers with the rate-limit message though the operator may have no
    token at all; nothing is written, and the sequence has moved on. *)
Theorem key_collision_reads_as_rate_limit (now : Z) (token : string)
    (transport : outcome response) (operator : operator_row) (row : token_row)
    (w : world) :
  faults w = [] -> catalog_of w = initial_catalog ->
  validateEmail (o_email operator) = true ->
  List.find (fun r => String.eqb (o_email r) (o_email operator)) (operators (committed w))
  = Some operator ->
  In row (tokens (committed w)) ->
  t_id row = tokens_id_seq w ->
  fst (forgot validateEmail root now token transport (o_email operator) w)
  = Resolved rate_limited
  /\ committed (snd (forgot validateEmail root now token transport (o_email operator) w))
     = committed w
  /\ tokens_id_seq (snd (forgot validateEmail root now token transport
                           (o_email operator) w))
     = tokens_id_seq w + 1.
Proof.
  intros Hf Hc Hvalid Hfind Hin Hkey.
  assert (Hclash : existsb (fun r => t_id r =? tokens_id_seq w) (tokens (committed w))
                   = true).
  { apply existsb_exists. exists row. split; [exact Hin | apply Z.eqb_eq; exact Hkey]. }
  unfold forgot, responding. rewrite Hvalid. simpl. unfold try_catch, bind.
  rewrite getOperatorByEmail_quiet by assumption. rewrite Hfind.
  destruct w as [cat [ops tks] oseq tseq trx st fl lg ss]. simpl in *. subst.
  unfold setResetToken, insert_into_tokens, try_catch, bind, round_trip,
    nextval_tokens, on_tables, insert_token. simpl.
  rewrite Hclash. simpl. repeat split; reflexivity.
Qed.

(** ** Tokens are used once *)

Lemma find_absent {A : Type} (p : A -> bool) (l : list A) :
  (forall r, In r l -> p r = false) -> List.find p l = None.
Proof.
  induction l as [|x l IH]; simpl; intros H; [reflexivity |].
  rewrite (H x) by auto. apply IH. intros r Hr. apply H. auto.
Qed.

Lemma deleted_token_is_gone (token : string) (rows : list token_row) (r : token_row) :
  In r (delete_tokens token rows) -> t_token r <> token.
Proof.
  unfold delete_tokens. intros Hin. apply List.filter_In in Hin.
  destruct Hin as [_ Hr]. apply negb_true_iff in Hr. apply String.eqb_neq. exact Hr.
Qed.

(** After a successful reset the token is spent: no token row has its value
    any more, and a second reset with it is refused, at any time and with
    any valid password. *)
Theorem reset_token_is_single_use (now now' : Z) (token pw pw' : string) (w : world) :
  faults w = [] -> catalog_of w = initial_catalog ->
  Validation.validatePassword pw = true ->
  Validation.validatePassword pw' = true ->
  fst (password bcrypt_hash now token pw w) = Resolved password_updated ->
  (forall r, In r (tokens (committed (snd (password bcrypt_hash now token pw w)))) ->
             t_token r <> token)
  /\ fst (password bcrypt_hash now' token pw'
            (snd (password bcrypt_hash now token pw w)))
     = Resolved token_refused.
Proof.
  intros Hf Hc Hpw Hpw' Hdone.
  rewrite (password_quiet bcrypt_hash now token pw w Hf Hc Hpw) in *.
  destruct (List.find _ (tokens (committed w))) as [record|] eqn:F;
    [| vm_compute in Hdone; discriminate Hdone].
  apply find_some in F. destruct F as [_ Hrecord].
  apply andb_true_iff in Hrecord. destruct Hrecord as [Hvalue _].
  apply String.eqb_eq in Hvalue.
  cbn [snd]. split.
  - simpl. rewrite Hvalue. apply deleted_token_is_gone.
  - rewrite password_quiet by (simpl; auto). simpl.
    rewrite find_absent; [reflexivity |].
    intros r Hin. rewrite Hvalue in Hin. apply deleted_token_is_gone in Hin.
    apply andb_false_iff. left. apply String.eqb_neq. exact Hin.
Qed.

Lemma init_quiet (token pw name : string) (record : token_row) (w : world) :
  faults w = [] -> catalog_of w = initial_catalog ->
  Validation.validateOperator name = true ->
  Validation.validatePassword pw = true ->
  List.find (fun r => String.eqb (o_operator r) name) (operators (committed w)) = None ->
  List.find (fun r => String.eqb (t_token r) token) (tokens (committed w)) = Some record ->
  init bcrypt_hash token pw name w
  = (Resolved operator_initialized,
     transacted [Commit; Delete "auth.tokens"; Update "auth.operators"; Begin]
       (Tables (map (fun r => if o_id r =? t_fk_operator record
                              then apply_update
                                     (OperatorUpdate (Some (bcrypt_hash pw)) (Some name)) r
                              else r)
                    (operators (committed w)))
               (delete_tokens (t_token record) (tokens (committed w))))
       (answered (Select "auth.tokens") (answered (Select "operators") w))).
Proof.
  intros Hf Hc Hname Hpw Hfree Htoken.
  unfold init, responding. rewrite Hname. simpl. unfold try_catch, bind.
  rewrite getOperatorByName_quiet by assumption. rewrite Hfree. rewrite Hpw. simpl.
  rewrite Htoken. unfold initOperator. rewrite update_then_delete_quiet by (simpl; auto).
  reflexivity.
Qed.

Lemma init_name_taken (token pw name : string) (w : world) :
  faults w = [] ->
  Validation.validateOperator name = true ->
  (exists r, In r (operators (committed w)) /\ o_operator r = name) ->
  fst (init bcrypt_hash token pw name w) = Resolved name_taken.
Proof.
  intros Hf Hname Hstored.
  destruct (find_present (fun r => String.eqb (o_operator r) name) (operators (committed w)))
    as [x F].
  { destruct Hstored as [r [Hin Hr]]. exists r. split; auto. apply String.eqb_eq. exact Hr. }
  unfold init, responding. rewrite Hname. simpl. unfold try_catch, bind.
  rewrite getOperatorByName_quiet by assumption. rewrite F. reflexivity.
Qed.

Lemma init_no_token (token pw name : string) (w : world) :
  faults w = [] ->
  Validation.validateOperator name = true ->
  Validation.validatePassword pw = true ->
  (forall r, In r (operators (committed w)) -> o_operator r <> name) ->
  (forall r, In r (tokens (committed w)) -> t_token r <> token) ->
  fst (init bcrypt_hash token pw name w) = Resolved invitation_invalid.
Proof.
  intros Hf Hname Hpw Hfree Hnone.
  unfold init, responding. rewrite Hname. simpl. unfold try_catch, bind.
  rewrite getOperatorByName_quiet by assumption.
  rewrite find_absent.
  2: { intros r Hin. apply String.eqb_neq. apply Hfree. exact Hin. }
  rewrite Hpw. simpl.
  rewrite find_absent.
  2: { intros r Hin. apply String.eqb_neq. apply Hnone. exact Hin. }
  reflexivity.
Qed.

(** After a successful [init] the invitation is spent.  A second [init]
    with the same token and the same name is answered "This name is taken."
    (the name check comes first and the name now belongs to the operator);
    with another free and valid name it is answered "This invitation is
    invalid.". *)
Theorem invitation_is_single_use (token pw pw' name name' : string)
    (record : token_row) (invited : operator_row) (w : world) :
  faults w = [] -> catalog_of w = initial_catalog ->
  Validation.validateOperator name = true ->
  Validation.validatePassword pw = true ->
  (forall r, In r (operators (committed w)) -> o_operator r <> name) ->
  List.find (fun r => String.eqb (t_token r) token) (tokens (committed w)) = Some record ->
  In invited (operators (committed w)) ->
  o_id invited = t_fk_operator record ->
  Validation.validateOperator name' = true ->
  Validation.validatePassword pw' = true ->
  name' <> name ->
  (forall r, In r (operators (committed w)) -> o_operator r <> name') ->
  fst (init bcrypt_hash token pw name w) = Resolved operator_initialized
  /\ fst (init bcrypt_hash token pw' name (snd (init bcrypt_hash token pw name w)))
     = Resolved name_taken
  /\ fst (init bcrypt_hash token pw' name' (snd (init bcrypt_hash token pw name w)))
     = Resolved invitation_invalid.
Proof.
  intros Hf Hc Hname Hpw Hfree Htoken Hin Hid Hname' Hpw' Hother Hfree'.
  assert (Hnone : List.find (fun r => String.eqb (o_operator r) name)
                    (operators (committed w)) = None).
  { apply find_absent. intros r Hr. apply String.eqb_neq. apply Hfree. exact Hr. }
  rewrite (init_quiet token pw name record w Hf Hc Hname Hpw Hnone Htoken).
  cbn [fst snd].
  assert (Hvalue : t_token record = token).
  { apply find_some in Htoken. apply String.eqb_eq. apply Htoken. }
  split; [reflexivity | split].
  - apply init_name_taken; [reflexivity | exact Hname |].
    exists (apply_update (OperatorUpdate (Some (bcrypt_hash pw)) (Some name)) invited).
    split; [| reflexivity].
    simpl. apply in_map_iff. exists invited. rewrite Hid, Z.eqb_refl. auto.
  - apply init_no_token; [reflexivity | exact Hname' | exact Hpw' | |].
    + simpl. intros r Hr. apply in_map_iff in Hr. destruct Hr as [x [<- Hx]].
      destruct (o_id x =? t_fk_operator record); simpl.
      * intros E. apply Hother. symmetry. exact E.
      * apply Hfree'. exact Hx.
    + simpl. rewrite Hvalue. apply deleted_token_is_gone.
Qed.

(** ** Logging in *)

(** How [login] runs, on any world. *)
Lemma login_run (now : Z) (sid email pw : string) (w : world) :
  login bcrypt_check jwt_sign now sid email pw w
  = if String.eqb email "" || String.eqb pw "" then (Resolved you_shall_not_pass, w)
    else
      let w' := set_wire (tl (faults w)) (Select "auth.operators" :: log w) w in
      match next_fault w with
      | Resolved _ =>
          match List.find (fun r => String.eqb (o_email r) email)
                  (operators (committed w)) with
          | Some user =>
              match o_password user with
              | Some hash =>
                  if bcrypt_check pw hash
                  then
                    let w'' := set_wire (tl (faults w')) (Insert "sessions" :: log w') w' in
                    match next_fault w' with
                    | Rejected error => (Rejected error, w'')
                    | _ =>
                        (Resolved (login_successful user),
                         set_sessions
                           (<[sid := Session (Some user) (Some (jwt_sign None now))]>
                              (sessions w)) w'')
                    end
                  else (Resolved you_shall_not_pass, w')
              | None => (Resolved you_shall_not_pass, w')
              end
          | None => (Resolved you_shall_not_pass, w')
          end
      | _ => (Resolved you_shall_not_pass, w')
      end.
Proof.
  unfold login, passport_authenticate, bind.
  destruct (String.eqb email "" || String.eqb pw ""); [reflexivity |].
  unfold localStrategy, select_first, try_catch, bind, on_tables.
  rewrite round_trip_run.
  destruct (next_fault_cases w) as [E | [e E]]; rewrite E; simpl; [| reflexivity].
  destruct (List.find _ (operators (committed w))) as [user|]; simpl; [| reflexivity].
  destruct (o_password user) as [hash|]; simpl; [| reflexivity].
  destruct (bcrypt_check pw hash); [| reflexivity].
  change (set_committed (committed w)
            (set_wire (tl (faults w)) (Select "auth.operators" :: log w) w))
    with (set_wire (tl (faults w)) (Select "auth.operators" :: log w) w).
  unfold ret. cbn beta iota zeta.
  unfold req_login, bind. rewrite round_trip_run.
  match goal with
  | |- context [next_fault ?w1] =>
      destruct (next_fault_cases w1) as [E1 | [e1 E1]]; rewrite E1
  end.
  - cbn beta iota zeta. cbn [sessions set_sessions]. rewrite alter_insert_eq. reflexivity.
  - reflexivity.
Qed.

(** [login] always settles and never writes to the tables.  Either it
    refuses with 400 "You shall not pass!" and leaves the session store as
    it was; or the credentials were verified -- both were given, the user
    is the stored row with that address and the password matches the hash
    of that row -- and then either [req.login] fails, the error goes to
    [next], no response is sent and the session store is as it was, or the
    login succeeds: the answer carries the whole row, the password hash
    included, the session holds the row, and the claim signed into the
    session carries no user id, because [authenticatedUser.id] is
    [undefined]. *)
Theorem login_success_carries_the_row (now : Z) (sid email pw : string) (w : world) :
  committed (snd (login bcrypt_check jwt_sign now sid email pw w)) = committed w
  /\ ((fst (login bcrypt_check jwt_sign now sid email pw w) = Resolved you_shall_not_pass
       /\ sessions (snd (login bcrypt_check jwt_sign now sid email pw w)) = sessions w)
      \/ (exists user hash,
             email <> "" /\ pw <> ""
             /\ In user (operators (committed w))
             /\ o_email user = email
             /\ o_password user = Some hash
             /\ bcrypt_check pw hash = true
             /\ ((exists error,
                     fst (login bcrypt_check jwt_sign now sid email pw w) = Rejected error
                     /\ sessions (snd (login bcrypt_check jwt_sign now sid email pw w))
                        = sessions w)
                 \/ (fst (login bcrypt_check jwt_sign now sid email pw w)
                     = Resolved (Reply 200 None true (Some "Login successful")
                                   (UserData user))
                     /\ sessions (snd (login bcrypt_check jwt_sign now sid email pw w))
                        = <[sid := Session (Some user) (Some (jwt_sign None now))]>
                            (sessions w)
                     /\ req_user (Some sid)
                          (snd (login bcrypt_check jwt_sign now sid email pw w))
                        = Some user)))).
Proof.
  rewrite login_run.
  destruct (String.eqb email "") eqn:Ee; [split; [| left; split]; reflexivity |].
  destruct (String.eqb pw "") eqn:Ep; [split; [| left; split]; reflexivity |].
  cbn [orb]. cbv zeta.
  destruct (next_fault w) as [[] | error |];
    try (split; [| left; split]; reflexivity).
  destruct (List.find _ (operators (committed w))) as [user|] eqn:F;
    [| split; [| left; split]; reflexivity].
  destruct (o_password user) as [hash|] eqn:Hhash;
    [| split; [| left; split]; reflexivity].
  destruct (bcrypt_check pw hash) eqn:Hcheck;
    [| split; [| left; split]; reflexivity].
  apply find_some in F. destruct F as [Hin Hemail]. apply String.eqb_eq in Hemail.
  apply String.eqb_neq in Ee. apply String.eqb_neq in Ep.
  match goal with
  | |- context [next_fault ?w1] => destruct (next_fault w1) as [[] | failure |]
  end.
  - split; [reflexivity |]. right. exists user, hash.
    repeat (split; [assumption |]). right.
    split; [reflexivity | split; [reflexivity |]].
    simpl. rewrite lookup_insert_eq. reflexivity.
  - split; [reflexivity |]. right. exists user, hash.
    repeat (split; [assumption |]). left. exists failure. split; reflexivity.
  - split; [reflexivity |]. right. exists user, hash.
    repeat (split; [assumption |]). right.
    split; [reflexivity | split; [reflexivity |]].
    simpl. rewrite lookup_insert_eq. reflexivity.
Qed.

(** A failed login does not tell why it failed: for an address that is not
    stored and for a stored address with a wrong password, [login] gives
    the same answer and leaves the same world, on any fault plan. *)
Theorem login_failures_are_alike (now : Z) (sid sid' email email' pw pw' : string)
    (user : operator_row) (hash : string) (w : world) :
  email <> "" -> pw <> "" -> email' <> "" -> pw' <> "" ->
  List.find (fun r => String.eqb (o_email r) email) (operators (committed w)) = None ->
  List.find (fun r => String.eqb (o_email r) email') (operators (committed w))
  = Some user ->
  o_password user = Some hash ->
  bcrypt_check pw' hash = false ->
  login bcrypt_check jwt_sign now sid email pw w
  = login bcrypt_check jwt_sign now sid' email' pw' w
  /\ fst (login bcrypt_check jwt_sign now sid email pw w) = Resolved you_shall_not_pass.
Proof.
  intros He Hp He' Hp' Hnone Hsome Hhash Hcheck.
  rewrite !login_run. rewrite Hnone, Hsome, Hhash, Hcheck.
  apply String.eqb_neq in He, Hp, He', Hp'. rewrite He, Hp, He', Hp'.
  cbn [orb]. cbv zeta.
  destruct (next_fault w) as [[] | error |]; split; reflexivity.
Qed.

Lemma login_succeeds (now : Z) (sid email pw : string) (user : operator_row)
    (hash : string) (w : world) :
  faults w = [] -> email <> "" -> pw <> "" ->
  List.find (fun r => String.eqb (o_email r) email) (operators (committed w))
  = Some user ->
  o_password user = Some hash ->
  bcrypt_check pw hash = true ->
  login bcrypt_check jwt_sign now sid email pw w
  = (Resolved (login_successful user),
     set_sessions (<[sid := Session (Some user) (Some (jwt_sign None now))]>
                     (sessions w))
       (answered (Insert "sessions") (answered (Select "auth.operators") w))).
Proof.
  intros Hf He Hp Hfind Hhash Hcheck.
  rewrite login_run. apply String.eqb_neq in He, Hp. rewrite He, Hp.
  cbn [orb]. cbv zeta. unfold next_fault. simpl. rewrite Hf, Hfind, Hhash, Hcheck.
  reflexivity.
Qed.

(** ** From the invitation to the first login *)

Lemma filter_none {A : Type} (p : A -> bool) (l : list A) :
  (forall y, In y l -> p y = false) -> List.filter p l = [].
Proof.
  induction l as [|x l IH]; simpl; intros H; auto.
  rewrite (H x) by auto. apply IH. intros y Hy. apply H. auto.
Qed.

Lemma password_not_empty (pw : string) : Validation.validatePassword pw = true -> pw <> "".
Proof. intros H ->. vm_compute in H. discriminate H. Qed.

(** An invitation can be followed to the first login.  For a valid address
    that is not stored and a token no row carries, after [invite] -- however
    the mail service answers -- [welcome] answers the token with the
    address; [init] with a valid password and a valid name that is free and
    is not "New Operator" succeeds, leaves the operator with that name and
    the hash of the password and removes the token; and [login] with the
    address and that password then succeeds as that operator. *)
Theorem invitation_round_trip (t0 now : Z) (token email pw name sid : string)
    (transport : outcome response) (w : world) :
  healthy w ->
  validateEmail email = true -> email <> "" ->
  (forall r, In r (operators (committed w)) -> o_email r <> email) ->
  (forall r, In r (tokens (committed w)) -> t_token r <> token) ->
  Validation.validateOperator name = true -> name <> "New Operator" ->
  (forall r, In r (operators (committed w)) -> o_operator r <> name) ->
  Validation.validatePassword pw = true ->
  bcrypt_check pw (bcrypt_hash pw) = true ->
  let invited := snd (invite validateEmail root t0 token transport email w) in
  let joined := snd (init bcrypt_hash token pw name invited) in
  let member := OperatorRow (operators_id_seq w) email (Some (bcrypt_hash pw)) name in
  fst (welcome token invited) = Resolved (res_json 200 true email)
  /\ fst (init bcrypt_hash token pw name invited) = Resolved operator_initialized
  /\ committed joined
     = Tables (operators (committed w) ++ [member]) (tokens (committed w))
  /\ fst (login bcrypt_check jwt_sign now sid email pw joined)
     = Resolved (login_successful member)
  /\ req_user (Some sid) (snd (login bcrypt_check jwt_sign now sid email pw joined))
     = Some member.
Proof.
  intros Hw Hvalid He Hnew Hfresh Hname Hreserved Hfree Hpw Hcheck invited joined member.
  assert (Hnone : List.find (fun r => String.eqb (o_email r) email)
                    (operators (committed w)) = None).
  { apply find_absent. intros r Hr. apply String.eqb_neq. apply Hnew. exact Hr. }
  assert (Hbelow : forall r, In r (operators (committed w)) ->
                             (o_id r =? operators_id_seq w) = false).
  { intros r Hin. apply Z.eqb_neq. destruct Hw as [_ _ Ho _ _].
    rewrite List.Forall_forall in Ho. specialize (Ho r Hin). lia. }
  assert (Hskip : forall r, In r (tokens (committed w)) ->
                            String.eqb (t_token r) token = false).
  { intros r Hin. apply String.eqb_neq. apply Hfresh. exact Hin. }
  subst joined invited.
  rewrite (invite_quiet validateEmail root t0 token email transport w Hw Hvalid Hnone).
  match goal with
  | |- context [init _ _ _ _ ?w1] => set (invited := w1)
  end.
  assert (Hinit : init bcrypt_hash token pw name invited
                  = (Resolved operator_initialized,
                     transacted [Commit; Delete "auth.tokens"; Update "auth.operators"; Begin]
                       (Tables (operators (committed w) ++ [member]) (tokens (committed w)))
                       (answered (Select "auth.tokens")
                          (answered (Select "operators") invited)))).
  { rewrite (init_quiet token pw name
               (TokenRow (tokens_id_seq w) (operators_id_seq w) token t0) invited);
      try reflexivity; try assumption.
    - f_equal. unfold transacted. f_equal. subst invited. simpl.
      unfold delete_tokens. rewrite List.filter_app, List.map_app. simpl.
      rewrite String.eqb_refl, Z.eqb_refl. simpl. rewrite List.app_nil_r.
      f_equal.
      + f_equal. apply map_untouched. exact Hbelow.
      + apply filter_everything. exact Hskip.
    - subst invited. simpl. apply find_absent. intros r Hr. apply String.eqb_neq.
      apply in_app_or in Hr. destruct Hr as [Hr | [<- | []]].
      + apply Hfree. exact Hr.
      + simpl. intros E. apply Hreserved. symmetry. exact E.
    - subst invited. simpl. rewrite find_app_skip by exact Hskip.
      simpl. rewrite String.eqb_refl. reflexivity. }
  rewrite Hinit. cbn [fst snd].
  split; [| split; [reflexivity | split; [reflexivity |]]].
  - unfold welcome, responding, try_catch, bind.
    rewrite getOperatorByToken_quiet by reflexivity. subst invited. simpl.
    unfold join_tokens_operators. simpl. rewrite List.flat_map_app.
    rewrite find_app_skip.
    2: { intros r Hin. apply Hskip.
         exact (join_left_rows (Tables _ (tokens (committed w))) r Hin). }
    simpl. rewrite List.app_nil_r, List.filter_app.
    rewrite filter_none.
    2: { intros r Hin. rewrite Z.eqb_sym. apply Hbelow. exact Hin. }
    simpl. rewrite Z.eqb_refl. simpl. rewrite String.eqb_refl. reflexivity.
  - rewrite (login_succeeds now sid email pw member (bcrypt_hash pw)).
    + split; [reflexivity |]. simpl. rewrite lookup_insert_eq. reflexivity.
    + reflexivity.
    + exact He.
    + apply password_not_empty. exact Hpw.
    + simpl. rewrite find_app_skip.
      * simpl. rewrite String.eqb_refl. reflexivity.
      * intros r Hr. apply String.eqb_neq. apply Hnew. exact Hr.
    + reflexivity.
    + exact Hcheck.
Qed.

(** ** An invitation whose mail is not sent *)

(** When the send throws, [invite] answers 500 with the message of the
    error, but the transaction that created the operator and the token was
    committed before and stays.  The address cannot be invited again: the
    next [invite] of it is answered "This operator has already joined." and
    writes nothing, whatever the mail service would do. *)
Theorem invite_survives_mail_failure (t0 t1 : Z) (token token' email : string)
    (error : js_error) (transport' : outcome response) (w : world) :
  healthy w ->
  validateEmail email = true ->
  (forall r, In r (operators (committed w)) -> o_email r <> email) ->
  let first := invite validateEmail root t0 token (Rejected error) email w in
  let second := invite validateEmail root t1 token' transport' email (snd first) in
  fst first = Resolved (failed_with error)
  /\ committed (snd first)
     = Tables (operators (committed w)
               ++ [OperatorRow (operators_id_seq w) email None "New Operator"])
              (tokens (committed w)
               ++ [TokenRow (tokens_id_seq w) (operators_id_seq w) token t0])
  /\ fst second = Resolved already_joined
  /\ committed (snd second) = committed (snd first).
Proof.
  intros Hw Hvalid Hnew first second.
  assert (Hnone : List.find (fun r => String.eqb (o_email r) email)
                    (operators (committed w)) = None).
  { apply find_absent. intros r Hr. apply String.eqb_neq. apply Hnew. exact Hr. }
  assert (Hfirst : fst first = Resolved (failed_with error)).
  { subst first. unfold invite, responding. rewrite Hvalid. simpl.
    unfold try_catch, bind.
    rewrite getOperatorByEmail_quiet by apply Hw. rewrite Hnone.
    rewrite setInviteToken_quiet by (apply healthy_answered; exact Hw).
    reflexivity. }
  split; [exact Hfirst |].
  subst second first.
  rewrite (invite_quiet validateEmail root t0 token email (Rejected error) w Hw Hvalid Hnone).
  split; [reflexivity |].
  unfold invite, responding. rewrite Hvalid. simpl.
  unfold try_catch, bind.
  rewrite getOperatorByEmail_quiet by reflexivity. simpl.
  rewrite find_app_skip.
  2: { intros r Hr. apply String.eqb_neq. apply Hnew. exact Hr. }
  simpl. rewrite String.eqb_refl. split; reflexivity.
Qed.

(** ** Sessions *)

(** Only [login] and [logout] touch the session store.  The other
    handlers leave every session as it is, however they settle, whatever
    round trip fails and whatever the mail service answers: in particular a
    password reset ends no session of the operator. *)
Theorem only_login_and_logout_touch_sessions (now user_id : Z)
    (token pw name mailRecipient : string) (transport : outcome response) (w : world) :
  sessions (snd (forgot validateEmail root now token transport mailRecipient w))
  = sessions w
  /\ sessions (snd (password bcrypt_hash now token pw w)) = sessions w
  /\ sessions (snd (operator user_id name w)) = sessions w
  /\ sessions (snd (probe name w)) = sessions w
  /\ sessions (snd (invite validateEmail root now token transport mailRecipient w))
     = sessions w
  /\ sessions (snd (welcome token w)) = sessions w
  /\ sessions (snd (init bcrypt_hash token pw name w)) = sessions w.
Proof using validateEmail bcrypt_hash root.
  assert (H1 : session_free (forgot validateEmail root now token transport mailRecipient))
    by (unfold forgot, responding; frame_sessions).
  assert (H2 : session_free (password bcrypt_hash now token pw))
    by (unfold password, responding; frame_sessions).
  assert (H3 : session_free (operator user_id name))
    by (unfold operator, responding; frame_sessions).
  assert (H4 : session_free (probe name))
    by (unfold probe, responding; frame_sessions).
  assert (H5 : session_free (invite validateEmail root now token transport mailRecipient))
    by (unfold invite, responding; frame_sessions).
  assert (H6 : session_free (welcome token))
    by (unfold welcome, responding; frame_sessions).
  assert (H7 : session_free (init bcrypt_hash token pw name))
    by (unfold init, responding; frame_sessions).
  exact (conj (H1 w) (conj (H2 w) (conj (H3 w) (conj (H4 w)
           (conj (H5 w) (conj (H6 w) (H7 w))))))).
Qed.

(** ** The guarded routes *)

(** Without an authenticated session the four guarded routes answer 403
    "Unauthenticated. Please log in first" and do nothing else: no round
    trip to the database, no mail, no change of the sessions.  With one,
    each runs its handler, [operator] with the key of the session's user. *)
Theorem guarded_routes_need_a_session (cookie : option string) (now : Z)
    (token name mailRecipient : string) (transport : outcome response) (w : world) :
  match req_user cookie w with
  | None =>
      GET_logout cookie w = (Resolved unauthenticated, w)
      /\ POST_operator cookie name w = (Resolved unauthenticated, w)
      /\ POST_probe cookie name w = (Resolved unauthenticated, w)
      /\ POST_invite validateEmail root cookie now token transport mailRecipient w
         = (Resolved unauthenticated, w)
  | Some user =>
      GET_logout cookie w = logout cookie w
      /\ POST_operator cookie name w = operator (o_id user) name w
      /\ POST_probe cookie name w = probe name w
      /\ POST_invite validateEmail root cookie now token transport mailRecipient w
         = invite validateEmail root now token transport mailRecipient w
  end.
Proof using validateEmail root.
  unfold GET_logout, POST_operator, POST_probe, POST_invite, isAuthenticated.
  destruct (req_user cookie w) as [user|] eqn:E.
  - rewrite bool_decide_eq_true_2 by eauto. rewrite ?E. repeat split; reflexivity.
  - rewrite bool_decide_eq_false_2 by (intros [x Hx]; discriminate Hx).
    repeat split; reflexivity.
Qed.

Lemma operator_quiet (user_id : Z) (name : string) (w : world) :
  faults w = [] -> catalog_of w = initial_catalog ->
  Validation.validateOperator name = true ->
  (forall r, In r (operators (committed w)) -> o_operator r <> name) ->
  operator user_id name w
  = (Resolved (recognized name),
     set_committed
       (Tables (map (fun r => if o_id r =? user_id
                              then apply_update (OperatorUpdate None (Some name)) r
                              else r)
                    (operators (committed w)))
               (tokens (committed w)))
       (answered (Update "auth.operators") (answered (Select "operators") w))).
Proof.
  intros Hf Hc Hname Hfree.
  unfold operator, responding. rewrite Hname. simpl. unfold try_catch, bind.
  rewrite getOperatorByName_quiet by assumption.
  rewrite find_absent.
  2: { intros r Hr. apply String.eqb_neq. apply Hfree. exact Hr. }
  destruct w as [cat [ops tks] oseq tseq trx st fl lg ss]. simpl in *. subst.
  reflexivity.
Qed.

(** A rename through the route changes the rows with the key of the
    session's user, and of those only the name: addresses, password hashes
    and keys stay, the other rows stay, the tokens stay.  The user the
    session holds is not refreshed: it is the row as it was at login. *)
Theorem rename_changes_own_name_only (cookie : option string) (name : string)
    (user : operator_row) (w : world) :
  faults w = [] -> catalog_of w = initial_catalog ->
  req_user cookie w = Some user ->
  Validation.validateOperator name = true ->
  (forall r, In r (operators (committed w)) -> o_operator r <> name) ->
  let after := snd (POST_operator cookie name w) in
  fst (POST_operator cookie name w) = Resolved (recognized name)
  /\ operators (committed after)
     = map (fun r => if o_id r =? o_id user
                     then OperatorRow (o_id r) (o_email r) (o_password r) name
                     else r)
           (operators (committed w))
  /\ tokens (committed after) = tokens (committed w)
  /\ req_user cookie after = Some user.
Proof.
  intros Hf Hc Huser Hname Hfree after. subst after.
  unfold POST_operator, isAuthenticated.
  rewrite bool_decide_eq_true_2 by (rewrite Huser; eauto).
  rewrite Huser. unfold operator_of.
  rewrite (operator_quiet (o_id user) name w Hf Hc Hname Hfree).
  cbn [fst snd]. repeat split.
  destruct cookie as [sid|]; [| discriminate Huser]. exact Huser.
Qed.

End MoreGatewayFacts.

(* ===================================================================== *)
(** * Further concrete runs *)
(* ===================================================================== *)

Module MoreRuns.
Import DatabaseService MailService.

Lemma consistent_genesis : consistent genesis.
Proof.
  split.
  - constructor; vm_compute; repeat constructor; intros [].
  - intros t E. vm_compute in E. discriminate E.
Defined.

Lemma genesis_addresses (email : string) :
  email <> "genesis@apebase.app" ->
  forall r, In r (operators (committed genesis)) -> o_email r <> email.
Proof.
  intros Hother r Hr. vm_compute in Hr. destruct Hr as [<- | []].
  intros E. apply Hother. symmetry. exact E.
Defined.

(** "a@b.com" passes the check, and so does the same text followed by a
    second [@] and anything. *)
Lemma only_two_parts_are_checked_witness :
  EmailValidation.isValidEmail "a@b.com" = true
  /\ EmailValidation.isValidEmail ("a@b.com" ++ "@" ++ "evil <script>")%string = true
  /\ EmailValidation.validateEmail ("a@b.com" ++ "@" ++ "evil <script>")%string = true.
Proof.
  assert (H : EmailValidation.isValidEmail "a@b.com" = true) by (vm_compute; reflexivity).
  split; [exact H |].
  exact (MoreValidationFacts.only_two_parts_are_checked "a@b.com" "evil <script>" H).
Defined.

(** The genesis database stays consistent under an invitation and under a
    login. *)
Lemma controllers_keep_keys_in_order_witness :
  consistent genesis
  /\ (forall now token transport mailRecipient,
         consistent (snd (invite EmailValidation.validateEmail sample_root now token
                            transport mailRecipient genesis)))
  /\ (forall now sid email pw,
         consistent (snd (login sample_check sample_sign now sid email pw genesis))).
Proof.
  destruct (controllers_keep_keys_in_order EmailValidation.validateEmail sample_hash
              sample_check sample_sign sample_root genesis consistent_genesis)
    as (_ & _ & _ & _ & _ & Hinvite & _ & _ & Hlogin & _).
  split; [exact consistent_genesis | split; [exact Hinvite | exact Hlogin]].
Defined.

(** A token of a reset request of the genesis operator: [welcome] answers
    it with the address of that operator, and an unknown value with the
    refusal. *)
Lemma welcome_discloses_only_the_owner_witness :
  snd (welcome "5f1d" reset_requested)
  = set_wire (tl (faults reset_requested)) (Select "tokens" :: log reset_requested)
      reset_requested
  /\ fst (welcome "0000" reset_requested) = Resolved no_invitation.
Proof.
  destruct (welcome_discloses_only_the_owner "5f1d" reset_requested) as (Hworld & _ & _).
  destruct (welcome_discloses_only_the_owner "0000" reset_requested) as (_ & _ & Hnone).
  split; [exact Hworld |].
  apply Hnone.
  - intros tk Htk. vm_compute in Htk. destruct Htk as [<- | []]. discriminate.
  - vm_compute. reflexivity.
Defined.

Lemma invalid_address_is_refused_first_witness :
  EmailValidation.validateEmail "carol.example.com" = false
  /\ forgot EmailValidation.validateEmail sample_root 1000 "5f1d" mail_accepted
       "carol.example.com" genesis
     = (Resolved not_a_valid_email, genesis)
  /\ invite EmailValidation.validateEmail sample_root 1000 "a1b2" mail_accepted
       "carol.example.com" genesis
     = (Resolved not_a_valid_email, genesis).
Proof.
  assert (H : EmailValidation.validateEmail "carol.example.com" = false)
    by (vm_compute; reflexivity).
  destruct (invalid_address_is_refused_first EmailValidation.validateEmail sample_root
              1000 "5f1d" "carol.example.com" mail_accepted genesis H) as (Hforgot & _).
  destruct (invalid_address_is_refused_first EmailValidation.validateEmail sample_root
              1000 "a1b2" "carol.example.com" mail_accepted genesis H) as (_ & Hinvite).
  split; [exact H | split; [exact Hforgot | exact Hinvite]].
Defined.

(** Nobody has the address; the mail service would refuse. *)
Lemma forgot_unknown_address_witness :
  faults genesis = []
  /\ EmailValidation.validateEmail "nobody@example.com" = true
  /\ forgot EmailValidation.validateEmail sample_root 1000 "5f1d"
       (Rejected (new_Error "fetch failed")) "nobody@example.com" genesis
     = (Resolved mail_on_its_way, answered (Select "operators") genesis).
Proof.
  assert (H1 : faults genesis = []) by (vm_compute; reflexivity).
  assert (H2 : EmailValidation.validateEmail "nobody@example.com" = true)
    by (vm_compute; reflexivity).
  assert (H3 : forall r, In r (operators (committed genesis)) ->
                         o_email r <> "nobody@example.com")
    by (apply genesis_addresses; discriminate).
  split; [exact H1 | split; [exact H2 |]].
  exact (forgot_unknown_address EmailValidation.validateEmail sample_root 1000 "5f1d"
           "nobody@example.com" (Rejected (new_Error "fetch failed")) genesis H1 H2 H3).
Defined.

(** The insert of the reset token meets an error with the code 23505. *)
Lemma rate_limit_signal_is_any_23505_witness :
  fst (forgot sample_validateEmail sample_root 1000 "5f1d" mail_accepted
         "genesis@apebase.app"
         (set_wire [None; Some (JsError (Some "23505") "duplicate key value")] [] genesis))
  = Resolved rate_limited.
Proof.
  assert (H1 : sample_validateEmail "genesis@apebase.app" = true)
    by (vm_compute; reflexivity).
  assert (H2 : getOperatorByEmail "genesis@apebase.app"
                 (set_wire [None; Some (JsError (Some "23505") "duplicate key value")] []
                    genesis)
               = (Resolved (Some (OperatorRow 0 "genesis@apebase.app" (Some genesis_hash)
                                    "Genesis")),
                  set_wire [Some (JsError (Some "23505") "duplicate key value")]
                    [Select "operators"] genesis))
    by (vm_compute; reflexivity).
  assert (H3 : faults (set_wire [Some (JsError (Some "23505") "duplicate key value")]
                         [Select "operators"] genesis)
               = [Some (JsError (Some "23505") "duplicate key value")])
    by reflexivity.
  rewrite (rate_limit_signal_is_any_23505 sample_validateEmail sample_root 1000 "5f1d"
             "genesis@apebase.app" mail_accepted _ _ _ _ _ H1 H2 H3).
  reflexivity.
Defined.

(** A token row was restored under the key the sequence hands out next. *)
Lemma key_collision_reads_as_rate_limit_witness :
  fst (forgot sample_validateEmail sample_root 1000 "5f1d" mail_accepted
         "genesis@apebase.app"
         (set_committed (Tables (operators (committed genesis)) [TokenRow 1 7 "0ld" 5])
            genesis))
  = Resolved rate_limited.
Proof.
  pose (w := set_committed (Tables (operators (committed genesis)) [TokenRow 1 7 "0ld" 5])
               genesis).
  assert (H1 : faults w = []) by (vm_compute; reflexivity).
  assert (H2 : catalog_of w = initial_catalog) by (vm_compute; reflexivity).
  assert (H3 : sample_validateEmail "genesis@apebase.app" = true)
    by (vm_compute; reflexivity).
  assert (H4 : List.find (fun r => String.eqb (o_email r) "genesis@apebase.app")
                 (operators (committed w))
               = Some (OperatorRow 0 "genesis@apebase.app" (Some genesis_hash) "Genesis"))
    by (vm_compute; reflexivity).
  assert (H5 : In (TokenRow 1 7 "0ld" 5) (tokens (committed w))) by (left; reflexivity).
  assert (H6 : t_id (TokenRow 1 7 "0ld" 5) = tokens_id_seq w) by (vm_compute; reflexivity).
  destruct (key_collision_reads_as_rate_limit sample_validateEmail sample_root 1000 "5f1d"
              mail_accepted
              (OperatorRow 0 "genesis@apebase.app" (Some genesis_hash) "Genesis")
              (TokenRow 1 7 "0ld" 5) w H1 H2 H3 H4 H5 H6) as (Hanswer & _).
  exact Hanswer.
Defined.

(** The reset token of the genesis operator, used twice. *)
Lemma reset_token_is_single_use_witness :
  fst (password sample_hash 2000 "5f1d" "Abcdef1!" reset_requested)
  = Resolved password_updated
  /\ fst (password sample_hash 3000 "5f1d" "Ghijkl2?"
            (snd (password sample_hash 2000 "5f1d" "Abcdef1!" reset_requested)))
     = Resolved token_refused.
Proof.
  assert (H1 : faults reset_requested = []) by (vm_compute; reflexivity).
  assert (H2 : catalog_of reset_requested = initial_catalog) by (vm_compute; reflexivity).
  assert (H3 : Validation.validatePassword "Abcdef1!" = true) by (vm_compute; reflexivity).
  assert (H4 : Validation.validatePassword "Ghijkl2?" = true) by (vm_compute; reflexivity).
  assert (H5 : fst (password sample_hash 2000 "5f1d" "Abcdef1!" reset_requested)
               = Resolved password_updated) by (vm_compute; reflexivity).
  destruct (reset_token_is_single_use sample_hash 2000 3000 "5f1d" "Abcdef1!" "Ghijkl2?"
              reset_requested H1 H2 H3 H4 H5) as (_ & Hsecond).
  split; [exact H5 | exact Hsecond].
Defined.

(** The invitation of Carol, used twice. *)
Lemma invitation_is_single_use_witness :
  fst (init sample_hash "a1b2" "Abcdef1!" "Carol" invited_world)
  = Resolved operator_initialized
  /\ fst (init sample_hash "a1b2" "Ghijkl2?" "Carol"
            (snd (init sample_hash "a1b2" "Abcdef1!" "Carol" invited_world)))
     = Resolved name_taken
  /\ fst (init sample_hash "a1b2" "Ghijkl2?" "Carla"
            (snd (init sample_hash "a1b2" "Abcdef1!" "Carol" invited_world)))
     = Resolved invitation_invalid.
Proof.
  assert (H1 : faults invited_world = []) by (vm_compute; reflexivity).
  assert (H2 : catalog_of invited_world = initial_catalog) by (vm_compute; reflexivity).
  assert (H3 : Validation.validateOperator "Carol" = true) by (vm_compute; reflexivity).
  assert (H4 : Validation.validatePassword "Abcdef1!" = true) by (vm_compute; reflexivity).
  assert (H5 : forall r, In r (operators (committed invited_world)) ->
                         o_operator r <> "Carol").
  { intros r Hr. vm_compute in Hr. destruct Hr as [<- | [<- | []]]; discriminate. }
  assert (H6 : List.find (fun r => String.eqb (t_token r) "a1b2")
                 (tokens (committed invited_world))
               = Some (TokenRow 1 1 "a1b2" 1000)) by (vm_compute; reflexivity).
  assert (H7 : In (OperatorRow 1 "carol@example.com" None "New Operator")
                 (operators (committed invited_world)))
    by (vm_compute; right; left; reflexivity).
  assert (H8 : Validation.validateOperator "Carla" = true) by (vm_compute; reflexivity).
  assert (H9 : Validation.validatePassword "Ghijkl2?" = true) by (vm_compute; reflexivity).
  assert (H10 : "Carla" <> "Carol") by discriminate.
  assert (H11 : forall r, In r (operators (committed invited_world)) ->
                          o_operator r <> "Carla").
  { intros r Hr. vm_compute in Hr. destruct Hr as [<- | [<- | []]]; discriminate. }
  exact (invitation_is_single_use sample_hash "a1b2" "Abcdef1!" "Ghijkl2?" "Carol" "Carla"
           (TokenRow 1 1 "a1b2" 1000)
           (OperatorRow 1 "carol@example.com" None "New Operator") invited_world
           H1 H2 H3 H4 H5 H6 H7 eq_refl H8 H9 H10 H11).
Defined.

(** An address nobody has and the address of the genesis operator with a
    wrong password. *)
Lemma login_failures_are_alike_witness :
  login sample_check sample_sign 2000 "c0ffee" "nobody@example.com" "Abcdef1!" genesis
  = login sample_check sample_sign 2000 "decaf" "genesis@apebase.app" "Ghijkl2?" genesis.
Proof.
  assert (H1 : List.find (fun r => String.eqb (o_email r) "nobody@example.com")
                 (operators (committed genesis)) = None) by (vm_compute; reflexivity).
  assert (H2 : List.find (fun r => String.eqb (o_email r) "genesis@apebase.app")
                 (operators (committed genesis))
               = Some (OperatorRow 0 "genesis@apebase.app" (Some genesis_hash) "Genesis"))
    by (vm_compute; reflexivity).
  assert (H3 : sample_check "Ghijkl2?" genesis_hash = false) by (vm_compute; reflexivity).
  destruct (login_failures_are_alike sample_check sample_sign 2000 "c0ffee" "decaf"
              "nobody@example.com" "genesis@apebase.app" "Abcdef1!" "Ghijkl2?"
              (OperatorRow 0 "genesis@apebase.app" (Some genesis_hash) "Genesis")
              genesis_hash genesis) as (Hsame & _);
    [discriminate | discriminate | discriminate | discriminate
     | exact H1 | exact H2 | reflexivity | exact H3 |].
  exact Hsame.
Defined.

(** Carol is invited into the genesis database, with the address check of
    the repository and a mail service that accepts the mail. *)
Lemma invitation_round_trip_witness :
  fst (welcome "a1b2"
         (snd (invite EmailValidation.validateEmail sample_root 1000 "a1b2" mail_accepted
                 "carol@example.com" genesis)))
  = Resolved (res_json 200 true "carol@example.com")
  /\ fst (login sample_check sample_sign 3000 "c0ffee" "carol@example.com" "Abcdef1!"
            (snd (init sample_hash "a1b2" "Abcdef1!" "Carol"
                    (snd (invite EmailValidation.validateEmail sample_root 1000 "a1b2"
                            mail_accepted "carol@example.com" genesis)))))
     = Resolved (login_successful
                   (OperatorRow (operators_id_seq genesis) "carol@example.com"
                      (Some (sample_hash "Abcdef1!")) "Carol")).
Proof.
  assert (H1 : EmailValidation.validateEmail "carol@example.com" = true)
    by (vm_compute; reflexivity).
  assert (H2 : forall r, In r (operators (committed genesis)) ->
                         o_email r <> "carol@example.com")
    by (apply genesis_addresses; discriminate).
  assert (H3 : forall r, In r (tokens (committed genesis)) -> t_token r <> "a1b2").
  { intros r Hr. vm_compute in Hr. destruct Hr. }
  assert (H4 : Validation.validateOperator "Carol" = true) by (vm_compute; reflexivity).
  assert (H5 : forall r, In r (operators (committed genesis)) -> o_operator r <> "Carol").
  { intros r Hr. vm_compute in Hr. destruct Hr as [<- | []]. discriminate. }
  assert (H6 : Validation.validatePassword "Abcdef1!" = true) by (vm_compute; reflexivity).
  assert (H7 : sample_check "Abcdef1!" (sample_hash "Abcdef1!") = true)
    by (vm_compute; reflexivity).
  destruct (invitation_round_trip EmailValidation.validateEmail sample_hash sample_check
              sample_sign sample_root 1000 3000 "a1b2" "carol@example.com" "Abcdef1!"
              "Carol" "c0ffee" mail_accepted genesis Runs.healthy_genesis H1)
    as (Hwelcome & _ & _ & Hlogin & _);
    [discriminate | exact H2 | exact H3 | exact H4 | discriminate | exact H5
     | exact H6 | exact H7 |].
  split; [exact Hwelcome | exact Hlogin].
Defined.

(** The mail service cannot be reached when Carol is invited. *)
Lemma invite_survives_mail_failure_witness :
  fst (invite sample_validateEmail sample_root 1000 "a1b2"
         (Rejected (JsError None "fetch failed")) "carol@example.com" genesis)
  = Resolved (failed_with (JsError None "fetch failed"))
  /\ fst (invite sample_validateEmail sample_root 2000 "c3d4" mail_accepted
            "carol@example.com"
            (snd (invite sample_validateEmail sample_root 1000 "a1b2"
                    (Rejected (JsError None "fetch failed")) "carol@example.com" genesis)))
     = Resolved already_joined.
Proof.
  assert (H1 : sample_validateEmail "carol@example.com" = true)
    by (vm_compute; reflexivity).
  assert (H2 : forall r, In r (operators (committed genesis)) ->
                         o_email r <> "carol@example.com")
    by (apply genesis_addresses; discriminate).
  destruct (invite_survives_mail_failure sample_validateEmail sample_root 1000 2000
              "a1b2" "c3d4" "carol@example.com" (JsError None "fetch failed")
              mail_accepted genesis Runs.healthy_genesis H1 H2)
    as (Hfirst & _ & Hsecond & _).
  split; [exact Hfirst | exact Hsecond].
Defined.

(** Carol, logged in under the session [c0ffee], takes the name Caroline. *)
Lemma rename_changes_own_name_only_witness :
  fst (POST_operator (Some "c0ffee") "Caroline" logged_in)
  = Resolved (recognized "Caroline")
  /\ req_user (Some "c0ffee") (snd (POST_operator (Some "c0ffee") "Caroline" logged_in))
     = Some (OperatorRow 1 "carol@example.com" (Some (sample_hash "Abcdef1!")) "Carol").
Proof.
  assert (H1 : faults logged_in = []) by (vm_compute; reflexivity).
  assert (H2 : catalog_of logged_in = initial_catalog) by (vm_compute; reflexivity).
  assert (H3 : req_user (Some "c0ffee") logged_in
               = Some (OperatorRow 1 "carol@example.com" (Some (sample_hash "Abcdef1!"))
                         "Carol")) by (vm_compute; reflexivity).
  assert (H4 : Validation.validateOperator "Caroline" = true) by (vm_compute; reflexivity).
  assert (H5 : forall r, In r (operators (committed logged_in)) ->
                         o_operator r <> "Caroline").
  { intros r Hr. vm_compute in Hr. destruct Hr as [<- | [<- | []]]; discriminate. }
  destruct (rename_changes_own_name_only (Some "c0ffee") "Caroline"
              (OperatorRow 1 "carol@example.com" (Some (sample_hash "Abcdef1!")) "Carol")
              logged_in H1 H2 H3 H4 H5) as (Hanswer & _ & _ & Huser).
  split; [exact Hanswer | exact Huser].
Defined.

End MoreRuns.
